(** * cyclone.js: a shallow embedding of the structured-clone engine

    The development follows [src/cyclone.js]: the binding utility, the
    transfer map, the internal structured clone ([_iSClone],
    [_handleObjectClone], [_handleRegExpClone], [_handleCollectionClone]),
    the custom clone resolver ([_attemptCustomClone]), the public module
    [CY] and the code that exports it.

    JavaScript values live in an explicit heap.  The engine is written in
    a state-and-exception monad over that heap; the recursion of the
    cloner, which is not structural (object graphs may be cyclic), is
    bounded by a fuel argument whose sufficiency is proved below. *)

From Stdlib Require Import ZArith Ascii String.
From stdpp Require Import base option list strings gmap fin_maps.

(** ** Values and objects *)

Abbreviation loc := nat.

(** A JavaScript string is kept as its UTF-8 encoding, in [string]:
    equality, concatenation and the keys of objects are those of the
    encodings; [head_char] below reads a character off an encoding.

    A JavaScript number is an IEEE-754 binary64; it is kept as its 64-bit
    pattern.  The engine never computes with numbers, it only tests them
    ([ToBoolean], [===]). *)
Abbreviation number := Z.

Definition num_exponent (n : number) : Z := Z.land (Z.shiftr n 52) 2047.
Definition num_mantissa (n : number) : Z := Z.land n 4503599627370495.
Definition num_is_NaN (n : number) : bool :=
  (num_exponent n =? 2047)%Z && negb (num_mantissa n =? 0)%Z.
Definition num_is_zero (n : number) : bool :=
  (Z.land n 9223372036854775807 =? 0)%Z.
Arguments num_is_NaN : simpl never.
Arguments num_is_zero : simpl never.

Inductive value :=
| VUndefined
| VNull
| VBool (b : bool)
| VNumber (n : number)
| VString (s : string)
| VRef (l : loc).

Global Instance value_eq_dec : EqDecision value.
Proof. solve_decision. Defined.

(** The source text of a regular expression.  Whether a text is a
    pattern is for the parser of the engine to say, and the answer depends
    on the [u] flag.  [unicode_only] tells that the text is a pattern when
    it is read with the flag and a syntax error when it is read without:
    so is [[\u{1F600}-\u{1F64F}]], a range of two code points with the
    flag, and without it a class whose range [}-\u] is out of order. *)
Record pattern := Pattern {
  text : string;
  unicode_only : bool
}.

Global Instance pattern_eq_dec : EqDecision pattern.
Proof. solve_decision. Defined.

(** The data of a RegExp instance: [source], the flag properties and
    [lastIndex].  [sticky] and [unicode] are the flags the cloner does not
    look at. *)
Record regexp := RegExp {
  source : pattern;
  global : bool;
  ignoreCase : bool;
  multiline : bool;
  sticky : bool;
  unicode : bool;
  lastIndex : nat
}.

Global Instance regexp_eq_dec : EqDecision regexp.
Proof. solve_decision. Defined.

(** The internal slots of an object, by [[Class]].  [KFunction fid] is a
    callable object whose code is the host function [fid]; [KOther cls cn]
    is any other native or host object (Error, Math, a DOM node, ...) with
    its [[Class]] name and whether it carries a callable [cloneNode]. *)
Inductive kind :=
| KString (s : string)
| KNumber (n : number)
| KBoolean (b : bool)
| KDate (t : number)
| KRegExp (r : regexp)
| KArray (len : nat)
| KObject
| KFunction (fid : nat)
| KOther (cls : string) (cloneNode : bool).

Global Instance kind_eq_dec : EqDecision kind.
Proof. solve_decision. Defined.

(** The [[Prototype]] of an object: none, one of the standard prototypes
    (named by its class; they carry no enumerable property), or an object
    of the heap. *)
Inductive proto :=
| PNull
| PStd (cls : string)
| PObj (l : loc).

Global Instance proto_eq_dec : EqDecision proto.
Proof. solve_decision. Defined.

(** An object: its prototype, its internal slots and its own enumerable
    data properties. *)
Record obj := Obj {
  oproto : proto;
  okind : kind;
  oprops : gmap string value
}.

Abbreviation heap := (list obj).

(** ** Machine state, exceptions, the monad *)

(** What a run leaves behind besides the heap: the lines of [console.log]
    and the calls of functions of the heap, in the order they happen. *)
Inductive event :=
| ConsoleLog (label : string) (n : nat)
| Invoke (this : value) (method : string) (args : list value).

(** The exceptions: the two native errors the engine can meet, and whatever
    a host function throws. *)
Inductive exn :=
| TypeError (msg : string)
| SyntaxError (msg : string)
| HostThrow (v : value).

(** [procedures] is the module variable [_customCloneProcedures]. *)
Record state := State {
  st_heap : heap;
  procedures : list value;
  trace : list event
}.

(** A run ends with a value, with a JavaScript exception, or is cut short:
    the fuel ran out, or the run left what the model covers (an operation
    on a value of the wrong sort, a dangling reference). *)
Inductive abort := OutOfFuel | Stuck.

Inductive result (A : Type) :=
| Ok (a : A) (s : state)
| Throw (e : exn) (s : state)
| Abort (w : abort).
Arguments Ok {A} a s.
Arguments Throw {A} e s.
Arguments Abort {A} w.

Definition M (A : Type) := state → result A.

Definition ret {A} (a : A) : M A := fun s => Ok a s.
Definition bind {A B} (m : M A) (k : A → M B) : M B :=
  fun s => match m s with
           | Ok a s' => k a s'
           | Throw e s' => Throw e s'
           | Abort w => Abort w
           end.
Definition throw {A} (e : exn) : M A := fun s => Throw e s.
Definition stuck {A} : M A := fun _ => Abort Stuck.
Definition out_of_fuel {A} : M A := fun _ => Abort OutOfFuel.
Definition get_heap : M heap := fun s => Ok (st_heap s) s.
Definition set_heap (h : heap) : M unit :=
  fun s => Ok tt (State h (procedures s) (trace s)).
Definition emit (e : event) : M unit :=
  fun s => Ok tt (State (st_heap s) (procedures s) (trace s ++ [e])).

Global Instance M_ret : MRet M := @ret.
Global Instance M_bind : MBind M := fun A B k m => bind m k.

(** The host functions: the code of the callable objects, as a function of
    the receiver, the arguments and the heap. *)
Inductive host_result :=
| HReturn (v : value) (h : heap)
| HThrow (v : value) (h : heap).

Definition host_env := nat → value → list value → heap → host_result.

(** ** Primitive operations of the language *)

Definition lookup_obj (l : loc) : M obj :=
  fun s => match st_heap s !! l with
           | Some o => Ok o s
           | None => Abort Stuck
           end.

(** [new]: allocation at the next free address. *)
Definition alloc (o : obj) : M value :=
  fun s => Ok (VRef (length (st_heap s)))
              (State (st_heap s ++ [o]) (procedures s) (trace s)).

Definition is_callable (o : obj) : bool :=
  match okind o with KFunction _ => true | _ => false end.

(** [typeof v]. *)
Definition typeof_ (v : value) : M string :=
  match v with
  | VUndefined => ret "undefined"
  | VNull => ret "object"
  | VBool _ => ret "boolean"
  | VNumber _ => ret "number"
  | VString _ => ret "string"
  | VRef l => o ← lookup_obj l;
              ret (if is_callable o then "function" else "object")
  end.

(** [ToBoolean v]. *)
Definition truthy (v : value) : bool :=
  match v with
  | VUndefined | VNull => false
  | VBool b => b
  | VNumber n => negb (num_is_zero n || num_is_NaN n)
  | VString s => negb (String.eqb s "")
  | VRef _ => true
  end.

(** [a === b]. *)
Definition strict_equals (a b : value) : bool :=
  match a, b with
  | VNumber x, VNumber y =>
      negb (num_is_NaN x || num_is_NaN y)
      && ((num_is_zero x && num_is_zero y) || (x =? y)%Z)
  | _, _ => bool_decide (a = b)
  end.

(** [Object.prototype.toString] answers ["[object " + [[Class]] + "]"]. *)
Definition class_name (k : kind) : string :=
  match k with
  | KString _ => "String"
  | KNumber _ => "Number"
  | KBoolean _ => "Boolean"
  | KDate _ => "Date"
  | KRegExp _ => "RegExp"
  | KArray _ => "Array"
  | KObject => "Object"
  | KFunction _ => "Function"
  | KOther cls _ => cls
  end.

Definition _toString (input : value) : M string :=
  match input with
  | VUndefined => ret "[object Undefined]"
  | VNull => ret "[object Null]"
  | VBool _ => ret "[object Boolean]"
  | VNumber _ => ret "[object Number]"
  | VString _ => ret "[object String]"
  | VRef l => o ← lookup_obj l; ret ("[object " +:+ class_name (okind o) +:+ "]")
  end.

(** Looking a property up: own properties first, then the prototype
    chain.  The chain ends at an object without prototype, or at a standard
    prototype, which holds built-in properties only.  A chain of the heap
    [h] longer than [h] would be cyclic, which the language rules out. *)
Inductive found :=
| FoundValue (v : value)
| FoundStd (cls : string)
| NotFound.

Fixpoint find_property (fuel : nat) (h : heap) (l : loc) (name : string)
  : option found :=
  match fuel with
  | 0 => None
  | S n =>
      match h !! l with
      | None => None
      | Some o =>
          match oprops o !! name with
          | Some v => Some (FoundValue v)
          | None =>
              match oproto o with
              | PObj l' => find_property n h l' name
              | PStd cls => Some (FoundStd cls)
              | PNull => Some NotFound
              end
          end
      end
  end.

(** [v[name]] for reading.  The engine reads the members of its input and
    the properties [detect] and [copy], none of which is a built-in of a
    standard prototype. *)
Definition Get (v : value) (name : string) : M value :=
  match v with
  | VUndefined =>
      throw (TypeError ("Cannot read property '" +:+ name +:+ "' of undefined"))
  | VNull =>
      throw (TypeError ("Cannot read property '" +:+ name +:+ "' of null"))
  | VRef l =>
      h ← get_heap;
      match find_property (S (length h)) h l name with
      | Some (FoundValue v) => ret v
      | Some _ => ret VUndefined
      | None => stuck
      end
  | _ => ret VUndefined
  end.

(** The built-in [valueOf] methods.  Those of [String.prototype],
    [Number.prototype], [Boolean.prototype] and [Date.prototype] answer the
    primitive value of a receiver of their class and reject any other;
    every other standard prototype has [Object.prototype.valueOf], which
    answers the receiver. *)
Definition std_valueOf (cls : string) (this : value) : M value :=
  match this with
  | VRef l =>
      o ← lookup_obj l;
      if String.eqb cls "String" then
        match okind o with
        | KString s => ret (VString s)
        | _ => throw (TypeError "String.prototype.valueOf is not generic")
        end
      else if String.eqb cls "Number" then
        match okind o with
        | KNumber n => ret (VNumber n)
        | _ => throw (TypeError "Number.prototype.valueOf is not generic")
        end
      else if String.eqb cls "Boolean" then
        match okind o with
        | KBoolean b => ret (VBool b)
        | _ => throw (TypeError "Boolean.prototype.valueOf is not generic")
        end
      else if String.eqb cls "Date" then
        match okind o with
        | KDate t => ret (VNumber t)
        | _ => throw (TypeError "this is not a Date object.")
        end
      else ret this
  | _ => stuck
  end.

(** [_hasProp(input, prop)], that is [hasOwnProperty]. *)
Definition _hasProp (input : value) (prop : string) : M bool :=
  match input with
  | VRef l => o ← lookup_obj l; ret (bool_decide (is_Some (oprops o !! prop)))
  | _ => stuck
  end.

(** Whether the prototype chain that starts with [p] goes through [l]. *)
Fixpoint proto_reaches (fuel : nat) (h : heap) (p : proto) (l : loc) : bool :=
  match fuel, p with
  | S n, PObj q =>
      (q =? l)%nat
      || match h !! q with
         | Some o => proto_reaches n h (oproto o) l
         | None => false
         end
  | _, _ => false
  end.

(** The setter of the accessor [__proto__] of [Object.prototype], called
    on the object at [l]: an object or [null] becomes the prototype, unless
    the chain would then be cyclic, which is a TypeError; any other value
    is ignored. *)
Definition set_prototype (l : loc) (v : value) : M unit :=
  o ← lookup_obj l;
  h ← get_heap;
  match v with
  | VNull => set_heap (<[l := Obj PNull (okind o) (oprops o)]> h)
  | VRef p =>
      if bool_decide (oproto o = PObj p) then ret tt
      else if proto_reaches (S (length h)) h (PObj p) l
      then throw (TypeError "Cyclic __proto__ value")
      else set_heap (<[l := Obj (PObj p) (okind o) (oprops o)]> h)
  | _ => ret tt
  end.

(** [output[prop] = v].  The objects of the heap have data properties
    only, all of them writable, so the assignment makes or changes an own
    member; but for the name [__proto__], which is an accessor of
    [Object.prototype]: when the lookup of that name reaches a standard
    prototype, the assignment calls its setter.  An array index is always
    below the length the array was created with here, so [length] is
    never touched. *)
Definition put (target : value) (prop : string) (v : value) : M unit :=
  match target with
  | VRef l =>
      o ← lookup_obj l;
      h ← get_heap;
      let own :=
        set_heap (<[l := Obj (oproto o) (okind o) (<[prop := v]> (oprops o))]> h)
      in
      if String.eqb prop "__proto__" then
        match find_property (S (length h)) h l prop with
        | Some (FoundStd _) => set_prototype l v
        | Some _ => own
        | None => stuck
        end
      else own
  | _ => stuck
  end.

(** The names [for (prop in o)] visits: the own enumerable ones and those
    inherited from the objects of the prototype chain, each once.  The
    language leaves the order open; the one of the property map is taken. *)
Definition own_keys (o : obj) : list string := (map_to_list (oprops o)).*1.

Fixpoint inherited_keys (fuel : nat) (h : heap) (p : proto) : list string :=
  match fuel with
  | 0 => []
  | S n =>
      match p with
      | PObj l =>
          match h !! l with
          | Some o => own_keys o ++ inherited_keys n h (oproto o)
          | None => []
          end
      | _ => []
      end
  end.

Definition for_in (input : value) : M (list string) :=
  match input with
  | VRef l =>
      o ← lookup_obj l;
      h ← get_heap;
      ret (remove_dups (own_keys o ++ inherited_keys (length h) h (oproto o)))
  | _ => stuck
  end.

(** *** Constructors of the standard library *)

(** [new String(v)], [new Number(v)], [new Date(v)]: the cloner passes the
    primitive it read with [valueOf]; the conversions [ToString] and
    [ToNumber] of other values are not modelled.  A time value read from a
    Date is already clipped, so [new Date] keeps it. *)
Definition new_String (v : value) : M value :=
  match v with
  | VString s => alloc (Obj (PStd "String") (KString s) ∅)
  | _ => stuck
  end.

Definition new_Number (v : value) : M value :=
  match v with
  | VNumber n => alloc (Obj (PStd "Number") (KNumber n) ∅)
  | _ => stuck
  end.

Definition new_Boolean (v : value) : M value :=
  alloc (Obj (PStd "Boolean") (KBoolean (truthy v)) ∅).

Definition new_Date (v : value) : M value :=
  match v with
  | VNumber t => alloc (Obj (PStd "Date") (KDate t) ∅)
  | _ => stuck
  end.

(** [new Array(len)]: [len] slots, all of them holes. *)
Definition new_Array (len : nat) : M value :=
  alloc (Obj (PStd "Array") (KArray len) ∅).

Definition array_length (input : value) : M nat :=
  match input with
  | VRef l =>
      o ← lookup_obj l;
      match okind o with KArray len => ret len | _ => stuck end
  | _ => stuck
  end.

Definition getPrototypeOf (input : value) : M proto :=
  match input with
  | VRef l => o ← lookup_obj l; ret (oproto o)
  | _ => stuck
  end.

Definition Object_create (p : proto) : M value := alloc (Obj p KObject ∅).

(** [new RegExp(pattern, flags)]: each flag letter at most once, and the
    text a pattern under these flags.  The message of the SyntaxError for
    a text that is no pattern names the text; the reason the engine adds
    is left out. *)
Definition set_flag (c : ascii) (r : regexp) : option regexp :=
  let '(RegExp src g i m y u li) := r in
  if Ascii.eqb c "g" then if g then None else Some (RegExp src true i m y u li)
  else if Ascii.eqb c "i" then if i then None else Some (RegExp src g true m y u li)
  else if Ascii.eqb c "m" then if m then None else Some (RegExp src g i true y u li)
  else if Ascii.eqb c "y" then if y then None else Some (RegExp src g i m true u li)
  else if Ascii.eqb c "u" then if u then None else Some (RegExp src g i m y true li)
  else None.

Fixpoint parse_flags (flags : string) (r : regexp) : option regexp :=
  match flags with
  | EmptyString => Some r
  | String c rest =>
      match set_flag c r with
      | Some r' => parse_flags rest r'
      | None => None
      end
  end.

Definition new_RegExp (pattern : pattern) (flags : string) : M value :=
  match parse_flags flags (RegExp pattern false false false false false 0) with
  | Some r =>
      if unicode_only pattern && negb (unicode r)
      then throw (SyntaxError ("Invalid regular expression: /"
                               +:+ text pattern +:+ "/"))
      else alloc (Obj (PStd "RegExp") (KRegExp r) ∅)
  | None =>
      throw (SyntaxError ("Invalid flags supplied to RegExp constructor '"
                          +:+ flags +:+ "'"))
  end.

(** The RegExp instance behind a value, for [re.source], [re.global], ... *)
Definition regexp_of (re : value) : M regexp :=
  match re with
  | VRef l =>
      o ← lookup_obj l;
      match okind o with KRegExp r => ret r | _ => stuck end
  | _ => stuck
  end.

(** DOM nodes are opaque: [typeof input.cloneNode] is read off the node, and
    [input.cloneNode()] answers a fresh node of the same class, without the
    expando properties. *)
Definition typeof_cloneNode (input : value) : M string :=
  match input with
  | VRef l =>
      o ← lookup_obj l;
      ret (match okind o with
           | KOther _ true => "function"
           | _ => "undefined"
           end)
  | _ => stuck
  end.

Definition cloneNode (input : value) : M value :=
  match input with
  | VRef l =>
      o ← lookup_obj l;
      match okind o with
      | KOther cls true => alloc (Obj (oproto o) (KOther cls true) ∅)
      | _ => stuck
      end
  | _ => stuck
  end.

(** [_htmlElementRE.test(s)] for [/^\[object\sHTML(.*?)Element\]$/]. *)

(** The value of a continuation byte of UTF-8. *)
Definition continuation (c : ascii) : option N :=
  let b := N_of_ascii c in
  if (128 <=? b)%N && (b <? 192)%N then Some (b - 128)%N else None.

Definition at_least (low : N) (r : N * string) : option (N * string) :=
  if (low <=? r.1)%N then Some r else None.

(** The first character of a string, as its code point, and what follows
    it; [None] for the empty string and where the bytes are no encoding
    (the shortest one) of a code point. *)
Definition head_char (s : string) : option (N * string) :=
  match s with
  | EmptyString => None
  | String c0 s1 =>
      let b0 := N_of_ascii c0 in
      if (b0 <? 128)%N then Some (b0, s1)
      else if (192 <=? b0)%N && (b0 <? 224)%N then
        match s1 with
        | String c1 s2 =>
            match continuation c1 with
            | Some x1 => at_least 128 ((b0 - 192) * 64 + x1, s2)%N
            | None => None
            end
        | _ => None
        end
      else if (224 <=? b0)%N && (b0 <? 240)%N then
        match s1 with
        | String c1 (String c2 s3) =>
            match continuation c1, continuation c2 with
            | Some x1, Some x2 =>
                at_least 2048 (((b0 - 224) * 64 + x1) * 64 + x2, s3)%N
            | _, _ => None
            end
        | _ => None
        end
      else if (240 <=? b0)%N && (b0 <? 248)%N then
        match s1 with
        | String c1 (String c2 (String c3 s4)) =>
            match continuation c1, continuation c2, continuation c3 with
            | Some x1, Some x2, Some x3 =>
                at_least 65536
                  ((((b0 - 240) * 64 + x1) * 64 + x2) * 64 + x3, s4)%N
            | _, _, _ => None
            end
        | _ => None
        end
      else None
  end.

(** The encoding of a code point. *)
Definition encode (c : N) : string :=
  let byte (n : N) : ascii := ascii_of_N n in
  let tail (n : N) : ascii := byte (128 + n mod 64)%N in
  if (c <? 128)%N then String (byte c) ""
  else if (c <? 2048)%N then
    String (byte (192 + c / 64)%N) (String (tail c) "")
  else if (c <? 65536)%N then
    String (byte (224 + c / 4096)%N)
      (String (tail (c / 64)%N) (String (tail c) ""))
  else
    String (byte (240 + c / 262144)%N)
      (String (tail (c / 4096)%N)
         (String (tail (c / 64)%N) (String (tail c) ""))).

(** The characters [\s] matches: the white space and the line terminators
    of the language (tab, VT, FF, space, U+00A0, U+FEFF and the space
    separators of Unicode; LF, CR, U+2028, U+2029). *)
Definition is_white_space (c : N) : bool :=
  existsb (N.eqb c)
    [9; 10; 11; 12; 13; 32; 160; 5760; 8232; 8233; 8239; 8287; 12288; 65279]%N
  || ((8192 <=? c)%N && (c <=? 8202)%N).

(** The characters [.] does not match: LF, CR, U+2028 and U+2029. *)
Definition is_line_terminator (c : N) : bool :=
  existsb (N.eqb c) [10; 13; 8232; 8233]%N.

Definition at_line_terminator (s : string) : bool :=
  match head_char s with
  | Some (c, _) => is_line_terminator c
  | None => false
  end.

Fixpoint strip_prefix (p s : string) : option string :=
  match p, s with
  | EmptyString, _ => Some s
  | String a p', String b s' =>
      if Ascii.eqb a b then strip_prefix p' s' else None
  | _, _ => None
  end.

(** [(.*?)] followed by [suffix] and the end of the text: no line
    terminator starts before the place where [suffix] is all that is
    left. *)
Fixpoint dot_star_then (suffix s : string) : bool :=
  String.eqb s suffix ||
  match s with
  | EmptyString => false
  | String _ s' => negb (at_line_terminator s) && dot_star_then suffix s'
  end.

Definition _htmlElementRE_test (s : string) : bool :=
  match strip_prefix "[object" s with
  | Some s1 =>
      match head_char s1 with
      | Some (c, s2) =>
          is_white_space c &&
          match strip_prefix "HTML" s2 with
          | Some s3 => dot_star_then "Element]" s3
          | None => false
          end
      | None => false
      end
  | None => false
  end.

(** ** The binding utility *)

(** [_bind(fn, ctx, ...boundArgs)]: a function that calls [fn] with the
    receiver [ctx] and the bound arguments followed by its own; the
    receiver of the new function is ignored.  A function is taken with its
    receiver and its argument list. *)
Definition _bind {T T' R : Type} (fn : T → list value → R) (ctx : T)
    (boundArgs : list value) : T' → list value → R :=
  fun _ arguments => fn ctx (boundArgs ++ arguments).

(** [Function.prototype.call], whose receiver is the function to call:
    the first argument becomes the receiver of that function. *)
Definition __call__ {R : Type} (this : value → list value → R)
    (arguments : list value) : R :=
  match arguments with
  | [] => this VUndefined []
  | thisArg :: args => this thisArg args
  end.

(** ** Transfer maps *)

Record TransferMap := mkTransferMap {
  inputs : list value;
  outputs : list value
}.

(** [new TransferMap()]. *)
Definition TransferMap_new : TransferMap := mkTransferMap [] [].

(** [xs.indexOf(x)]: the first index holding a value [=== x], else [-1]. *)
Fixpoint indexOf_from (xs : list value) (x : value) (i : Z) : Z :=
  match xs with
  | [] => (-1)%Z
  | y :: ys => if strict_equals y x then i else indexOf_from ys x (i + 1)%Z
  end.

Definition indexOf (xs : list value) (x : value) : Z := indexOf_from xs x 0%Z.

(** [xs[i]]: [undefined] out of range. *)
Definition array_get (xs : list value) (i : Z) : value :=
  if (i <? 0)%Z then VUndefined else default VUndefined (xs !! Z.to_nat i).

Definition TransferMap_set (this : TransferMap) (input output : value)
  : TransferMap :=
  if (indexOf (inputs this) input =? -1)%Z
  then mkTransferMap (inputs this ++ [input]) (outputs this ++ [output])
  else this.

Definition TransferMap_get (this : TransferMap) (input : value) : value :=
  let idx := indexOf (inputs this) input in
  let output := VNull in
  let output := if (idx >? -1)%Z then array_get (outputs this) idx else output in
  output.

(** ** The engine *)

Section Engine.
Context (host : host_env).

(** [this.method(...args)] on an object: the method is looked up, and
    called when it is callable.  A function of the heap runs its host code;
    of the built-in methods the engine only calls [valueOf]. *)
Definition call_method (this : value) (method : string)
    (args : list value) : M value :=
  match this with
  | VUndefined =>
      throw (TypeError ("Cannot read property '" +:+ method +:+ "' of undefined"))
  | VNull =>
      throw (TypeError ("Cannot read property '" +:+ method +:+ "' of null"))
  | VRef l =>
      h ← get_heap;
      match find_property (S (length h)) h l method with
      | Some (FoundValue (VRef lf)) =>
          f ← lookup_obj lf;
          match okind f with
          | KFunction fid =>
              emit (Invoke this method args);;
              h ← get_heap;
              match host fid this args h with
              | HReturn v h' => set_heap h';; ret v
              | HThrow e h' => set_heap h';; throw (HostThrow e)
              end
          | _ => throw (TypeError (method +:+ " is not a function"))
          end
      | Some (FoundStd cls) =>
          if String.eqb method "valueOf" then std_valueOf cls this
          else throw (TypeError (method +:+ " is not a function"))
      | Some _ => throw (TypeError (method +:+ " is not a function"))
      | None => stuck
      end
  | _ => stuck
  end.

(** [_customCloneProcedures[procIdx]]. *)
Definition procedure_at (procIdx : nat) : M value :=
  fun s => Ok (default VUndefined (procedures s !! procIdx)) s.

(** The loop [while (procIdx--) { ... }] of [_attemptCustomClone], entered
    with the value [procIdx] has before the test; [copy] is still
    unassigned when the loop runs dry. *)
Fixpoint _attemptCustomClone_loop (procIdx : nat) (obj : value) : M value :=
  match procIdx with
  | 0 => ret VUndefined
  | S procIdx =>
      emit (ConsoleLog "procIdx:" procIdx);;
      proc ← procedure_at procIdx;
      detected ← call_method proc "detect" [obj];
      if truthy detected then call_method proc "copy" [obj]
      else _attemptCustomClone_loop procIdx obj
  end.

Definition _attemptCustomClone (obj : value) : M value :=
  procIdx ← (fun s => Ok (length (procedures s)) s);
  _attemptCustomClone_loop procIdx obj.

(** The value of [flags] when [_handleRegExpClone] calls the
    constructor. *)
Definition _handleRegExpClone_flags (r : regexp) : string :=
  let flags := "" in
  let flags := if global r then flags +:+ "g" else flags in
  let flags := if ignoreCase r then flags +:+ "i" else flags in
  let flags := if multiline r then flags +:+ "m" else flags in
  flags.

Definition _handleRegExpClone (re : value) : M value :=
  r ← regexp_of re;
  new_RegExp (source r) (_handleRegExpClone_flags r).

Section Recursive.
(** The recursive call [_iSClone(input[prop], tMap)]; the transfer map
    is shared by reference, so every call hands back its new
    contents. *)
Context (rec : value → TransferMap → M (value * TransferMap)).

Fixpoint _handleCollectionClone_loop (input output : value)
    (keys : list string) (tMap : TransferMap) : M TransferMap :=
  match keys with
  | [] => ret tMap
  | prop :: keys =>
      own ← _hasProp input prop;
      if own : bool then
        v ← Get input prop;
        '(c, tMap) ← rec v tMap;
        put output prop c;;
        _handleCollectionClone_loop input output keys tMap
      else _handleCollectionClone_loop input output keys tMap
  end.

Definition _handleCollectionClone (input output : value)
    (tMap : TransferMap) : M TransferMap :=
  keys ← for_in input;
  _handleCollectionClone_loop input output keys tMap.

(** The [switch (obType)]: the shell of the clone and [isCollection]. *)
Definition clone_shell (input val : value) (obType : string)
  : M (value * bool) :=
  if String.eqb obType "[object String]" then
    output ← new_String val; ret (output, false)
  else if String.eqb obType "[object Number]" then
    output ← new_Number val; ret (output, false)
  else if String.eqb obType "[object Boolean]" then
    output ← new_Boolean val; ret (output, false)
  else if String.eqb obType "[object Date]" then
    output ← new_Date val; ret (output, false)
  else if String.eqb obType "[object RegExp]" then
    output ← _handleRegExpClone val; ret (output, false)
  else if String.eqb obType "[object Array]" then
    len ← array_length input;
    output ← new_Array len; ret (output, true)
  else if String.eqb obType "[object Object]" then
    p ← getPrototypeOf input;
    output ← Object_create p; ret (output, true)
  else
    isNode ← (if _htmlElementRE_test obType
              then t ← typeof_cloneNode input; ret (String.eqb t "function")
              else ret false);
    if isNode : bool then
      output ← cloneNode input; ret (output, false)
    else
      throw (TypeError ("Don't know how to clone object of type "
                        +:+ obType)).

(** [_handleObjectClone] from [var val = input.valueOf()] on: the
    built-in handling. *)
Definition _handleObjectClone_builtin (input : value) (tMap : TransferMap)
  : M (value * TransferMap) :=
  val ← call_method input "valueOf" [];
  obType ← _toString input;
  '(output, isCollection) ← clone_shell input val obType;
  let tMap := TransferMap_set tMap input output in
  tMap ← (if isCollection : bool
          then _handleCollectionClone input output tMap
          else ret tMap);
  ret (output, tMap).

Definition _handleObjectClone (input : value) (tMap : TransferMap)
  : M (value * TransferMap) :=
  let _selfRef := TransferMap_get tMap input in
  if negb (strict_equals _selfRef VNull) then ret (_selfRef, tMap)
  else
    _cloneAttempt ← _attemptCustomClone input;
    t ← typeof_ _cloneAttempt;
    if negb (String.eqb t "undefined") then ret (_cloneAttempt, tMap)
    else _handleObjectClone_builtin input tMap.
End Recursive.

Fixpoint _iSClone (fuel : nat) (input : value) (tMap : TransferMap)
  : M (value * TransferMap) :=
  match fuel with
  | 0 => out_of_fuel
  | S fuel =>
      if strict_equals input VNull then ret (VNull, tMap)
      else
        t ← typeof_ input;
        if String.eqb t "object"
        then _handleObjectClone (_iSClone fuel) input tMap
        else ret (input, tMap)
  end.

(** The module [CY]. *)
Definition CY_clone (fuel : nat) (input : value) : M value :=
  '(output, _) ← _iSClone fuel input TransferMap_new;
  ret output.

Definition push_procedure (procObj : value) : M unit :=
  fun s => Ok tt (State (st_heap s) (procedures s ++ [procObj]) (trace s)).

Definition CY_defineCloneProcedure (procObj : value) : M bool :=
  t ← typeof_ procObj;
  if String.eqb t "object" then
    detect ← Get procObj "detect";
    td ← typeof_ detect;
    if String.eqb td "function" then
      copy ← Get procObj "copy";
      tc ← typeof_ copy;
      if String.eqb tc "function" then
        push_procedure procObj;;
        ret true
      else ret false
    else ret false
  else ret false.

Definition CY_clearCustomCloneProcedures : M unit :=
  fun s => Ok tt (State (st_heap s) [] (trace s)).
End Engine.

(** ** Exporting the module *)

(** The free identifiers the export code tests, [module], [define] and
    [require]: [None] for an identifier that is not declared. *)
Record module_scope := ModuleScope {
  id_module : option value;
  id_define : option value;
  id_require : option value
}.

(** [typeof x] for an identifier: ['undefined'] when it is not declared. *)
Definition typeof_identifier (x : option value) : M string :=
  match x with
  | Some v => typeof_ v
  | None => ret "undefined"
  end.

(** The value of an identifier; the export code only reads one after its
    [typeof] test, when it is declared. *)
Definition read_identifier (x : option value) : M value :=
  match x with
  | Some v => ret v
  | None => stuck
  end.

(** [target[prop] = v] in strict code. *)
Definition assign (target : value) (prop : string) (v : value) : M unit :=
  match target with
  | VRef _ => put target prop v
  | VUndefined =>
      throw (TypeError ("Cannot set property '" +:+ prop +:+ "' of undefined"))
  | VNull =>
      throw (TypeError ("Cannot set property '" +:+ prop +:+ "' of null"))
  | _ => throw (TypeError ("Cannot create property '" +:+ prop +:+ "'"))
  end.

Section ModuleExport.
Context (host : host_env).
(** The code of the function expression [function() { return CY; }]. *)
Context (factory : nat).

(** [f(...args)] for the value [f] of the identifier [name]: a plain call,
    whose receiver is [undefined] in strict code. *)
Definition call_function (f : value) (name : string) (args : list value)
  : M value :=
  match f with
  | VRef lf =>
      fo ← lookup_obj lf;
      match okind fo with
      | KFunction fid =>
          emit (Invoke VUndefined name args);;
          h ← get_heap;
          match host fid VUndefined args h with
          | HReturn v h' => set_heap h';; ret v
          | HThrow e h' => set_heap h';; throw (HostThrow e)
          end
      | _ => throw (TypeError (name +:+ " is not a function"))
      end
  | _ => throw (TypeError (name +:+ " is not a function"))
  end.

(** [typeof module === 'object' && typeof module.exports === 'object']. *)
Definition is_node (sc : module_scope) : M bool :=
  tm ← typeof_identifier (id_module sc);
  if String.eqb tm "object" then
    m ← read_identifier (id_module sc);
    e ← Get m "exports";
    te ← typeof_ e;
    ret (String.eqb te "object")
  else ret false.

(** [typeof define === 'function' && typeof require === 'function']. *)
Definition is_amd (sc : module_scope) : M bool :=
  td ← typeof_identifier (id_define sc);
  if String.eqb td "function" then
    tr ← typeof_identifier (id_require sc);
    ret (String.eqb tr "function")
  else ret false.

(** The export code at the end of the module, run with the module object
    [CY] and the [root] the module function was called with. *)
Definition export_module (sc : module_scope) (root CY : value) : M unit :=
  node ← is_node sc;
  if node : bool then
    m ← read_identifier (id_module sc);
    assign m "exports" CY
  else
    amd ← is_amd sc;
    if amd : bool then
      define ← read_identifier (id_define sc);
      deps ← new_Array 0;
      f ← alloc (Obj (PStd "Function") (KFunction factory) ∅);
      call_function define "define" [deps; f];;
      ret tt
    else assign root "CY" CY.
End ModuleExport.

(** ** Specification-side definitions *)

(** *** Transfer maps *)

(** The transfer map reached from [new TransferMap()] by a sequence of
    [set(input, output)] calls. *)
Definition register_all (ops : list (value * value)) : TransferMap :=
  foldl (fun tm '(i, o) => TransferMap_set tm i o) TransferMap_new ops.

(** The output of the first call of the sequence whose input is [===] to
    the one looked up; [null] when there is none. *)
Fixpoint first_registered (ops : list (value * value)) (input : value)
  : value :=
  match ops with
  | [] => VNull
  | (i, o) :: ops =>
      if strict_equals i input then o else first_registered ops input
  end.

(** Some element of [xs] is [===] to [x]. *)
Definition present (xs : list value) (x : value) : bool :=
  existsb (fun y => strict_equals y x) xs.

(** *** The custom clone resolver *)

(** What the scan of the procedures [newer], registered at the indices
    [base], [base + 1], ..., leaves in the trace when all of them decline:
    the most recent procedure is asked first. *)
Fixpoint declined_events (base : nat) (newer : list value) (obj : value)
  : list event :=
  match newer with
  | [] => []
  | q :: rest =>
      declined_events (S base) rest obj
      ++ [ConsoleLog "procIdx:" base; Invoke q "detect" [obj]]
  end.

(** A value of the heap [h]: no dangling reference. *)
Definition closed_value (h : heap) (v : value) : Prop :=
  match v with VRef l => l < length h | _ => True end.

Definition heap_closed (h : heap) : Prop :=
  ∀ l o k v, h !! l = Some o → oprops o !! k = Some v → closed_value h v.

(** No object of the heap has an own member named [__proto__]. *)
Definition no_proto_member (h : heap) : Prop :=
  ∀ l o, h !! l = Some o → oprops o !! "__proto__" = None.

Section Resolver.
Context (host : host_env).

(** [q.detect(obj)] returns [d] and takes the heap from [h] to [h']. *)
Definition detector_answers (procs : list value) (obj : value) (h : heap)
    (q d : value) (h' : heap) : Prop :=
  ∀ tr, call_method host q "detect" [obj] (State h procs tr)
        = Ok d (State h' procs (tr ++ [Invoke q "detect" [obj]])).

Definition copier_answers (procs : list value) (obj : value) (h : heap)
    (q c : value) (h' : heap) : Prop :=
  ∀ tr, call_method host q "copy" [obj] (State h procs tr)
        = Ok c (State h' procs (tr ++ [Invoke q "copy" [obj]])).

(** The detector of [q] answers a falsy value and leaves the heap alone. *)
Definition declines (procs : list value) (obj : value) (h : heap)
    (q : value) : Prop :=
  ∃ d, detector_answers procs obj h q d h ∧ truthy d = false.

(** The resolver finds no match from the heap [h0] on: whatever the
    object, in every heap that [h0] has grown into,
    [_attemptCustomClone] hands back [undefined] and leaves the heap
    alone.  This is the case of the empty registry, and of a registry
    whose procedures are objects of [h0] with detectors that decline. *)
Definition resolver_declines (procs : list value) (h0 : heap) : Prop :=
  ∀ obj h tr, h0 `prefix_of` h → ∃ tr',
    _attemptCustomClone host obj (State h procs tr)
    = Ok VUndefined (State h procs tr').

(** The procedure [q] is an object of [h0] whose own [detect] is a
    function of [h0] that answers a falsy value, whatever it is given, and
    leaves the heap alone. *)
Definition never_matches (h0 : heap) (q : value) : Prop :=
  ∃ l o lf f fid,
    q = VRef l ∧ h0 !! l = Some o ∧ oprops o !! "detect" = Some (VRef lf)
    ∧ h0 !! lf = Some f ∧ okind f = KFunction fid
    ∧ ∀ this args h, ∃ d, host fid this args h = HReturn d h
                          ∧ truthy d = false.
End Resolver.

(** *** The built-in shells *)

Definition is_stuck_class (cls : string) : bool :=
  existsb (String.eqb cls) ["String"; "Number"; "Date"; "RegExp"; "Array"].

(** The shell the [switch] of [_handleObjectClone] builds for an object, and
    [isCollection].  [None] when the clone of the object does not return:
    it is a function, which never gets to the [switch]; or the [switch]
    rejects it (see [rejection]); or it is an object of another kind that
    carries the class tag of a String, a Number, a Date, a RegExp or an
    Array, whose conversions by the constructors are not covered here. *)
Definition shell_of (o : obj) : option (obj * bool) :=
  match okind o with
  | KString s => Some (Obj (PStd "String") (KString s) ∅, false)
  | KNumber n => Some (Obj (PStd "Number") (KNumber n) ∅, false)
  | KBoolean b => Some (Obj (PStd "Boolean") (KBoolean b) ∅, false)
  | KDate t => Some (Obj (PStd "Date") (KDate t) ∅, false)
  | KRegExp r =>
      if unicode_only (source r) then None
      else
        Some (Obj (PStd "RegExp")
                (KRegExp (RegExp (source r) (global r) (ignoreCase r)
                            (multiline r) false false 0)) ∅, false)
  | KArray len => Some (Obj (PStd "Array") (KArray len) ∅, true)
  | KObject => Some (Obj (oproto o) KObject ∅, true)
  | KFunction _ => None
  | KOther cls cn =>
      if String.eqb cls "Boolean" then
        Some (Obj (PStd "Boolean") (KBoolean true) ∅, false)
      else if String.eqb cls "Object" then
        Some (Obj (oproto o) KObject ∅, true)
      else if is_stuck_class cls then None
      else if _htmlElementRE_test ("[object " +:+ cls +:+ "]") && cn then
        Some (Obj (oproto o) (KOther cls true) ∅, false)
      else None
  end.

(** The exception the built-in handling throws for an object, when it
    throws one: the TypeError of the [default] branch for a class the
    [switch] does not know (and that is no HTML element with a callable
    [cloneNode]), the SyntaxError of [new RegExp] for a regular expression
    whose source is a pattern with the [u] flag only. *)
Definition rejection (o : obj) : option exn :=
  match okind o with
  | KRegExp r =>
      if unicode_only (source r)
      then Some (SyntaxError ("Invalid regular expression: /"
                              +:+ text (source r) +:+ "/"))
      else None
  | KOther cls cn =>
      if existsb (String.eqb cls)
           ["String"; "Number"; "Boolean"; "Date"; "RegExp"; "Array"; "Object"]
         || (_htmlElementRE_test ("[object " +:+ cls +:+ "]") && cn)
      then None
      else Some (TypeError ("Don't know how to clone object of type [object "
                            +:+ cls +:+ "]"))
  | _ => None
  end.

(** *** Images under a transfer map *)

(** [typeof v === 'object'] for a value other than [null]. *)
Definition is_composite (h : heap) (v : value) : bool :=
  match v with
  | VRef l =>
      match h !! l with
      | Some o => negb (is_callable o)
      | None => false
      end
  | _ => false
  end.

(** What a member [v] of an original becomes in the clone: the output the
    transfer map records for a composite, [v] itself otherwise. *)
Definition img (h : heap) (tMap : TransferMap) (v : value) : value :=
  if is_composite h v then TransferMap_get tMap v else v.

Definition mapped (h : heap) (tMap : TransferMap) (v : value) : Prop :=
  is_composite h v = true → present (inputs tMap) v = true.

(** The entry [input ↦ output] of [tMap] is complete in the heap [h]: the
    output is the shell of the original (read in the heap [h0] the clone
    started from), populated with the images of the members when the
    original is a collection. *)
Definition copied (h0 : heap) (tMap : TransferMap) (h : heap)
    (input output : value) : Prop :=
  ∃ l l' o sh c,
    input = VRef l ∧ output = VRef l' ∧ h0 !! l = Some o
    ∧ shell_of o = Some (sh, c)
    ∧ h !! l' = Some (Obj (oproto sh) (okind sh)
                        (if c : bool then img h0 tMap <$> oprops o else ∅))
    ∧ (c = true → ∀ k v, oprops o !! k = Some v → mapped h0 tMap v).

(** *** Structural equality *)

(** Two values are related by [R] when they are the same primitive, the
    same callable (passed by reference), or composites paired by [R]. *)
Definition related (h : heap) (R : list (loc * loc)) (v1 v2 : value) : Prop :=
  if is_composite h v1
  then ∃ l1 l2, v1 = VRef l1 ∧ v2 = VRef l2 ∧ (l1, l2) ∈ R
  else v1 = v2.

(** [v1] and [v2] are structurally equal in [h]: some one-to-one pairing
    [R] of their composites relates them, and paired objects have the same
    class and internal slots, the same prototype, and the same member
    names with related member values. *)
Definition structurally_equal (h : heap) (v1 v2 : value) : Prop :=
  ∃ R : list (loc * loc),
    related h R v1 v2
    ∧ (∀ a b b', (a, b) ∈ R → (a, b') ∈ R → b = b')
    ∧ (∀ a a' b, (a, b) ∈ R → (a', b) ∈ R → a = a')
    ∧ (∀ a b, (a, b) ∈ R →
         ∃ o1 o2, h !! a = Some o1 ∧ h !! b = Some o2
           ∧ is_callable o1 = false
           ∧ okind o1 = okind o2 ∧ oproto o1 = oproto o2
           ∧ ∀ k, option_Forall2 (related h R) (oprops o1 !! k) (oprops o2 !! k)).

(** *** The built-in handling, step by step *)

(** The first three steps of the built-in handling: [valueOf], the class
    tag and the [switch]. *)
Definition shell_run (host : host_env) (input : value) : M (value * bool) :=
  val ← call_method host input "valueOf" [];
  obType ← _toString input;
  clone_shell input val obType.

(** *** Objects with the standard [valueOf] *)

Definition wrapper_class (k : kind) : option string :=
  match k with
  | KString _ => Some "String"
  | KNumber _ => Some "Number"
  | KBoolean _ => Some "Boolean"
  | KDate _ => Some "Date"
  | _ => None
  end.

Definition is_wrapper_class (cls : string) : bool :=
  existsb (String.eqb cls) ["String"; "Number"; "Boolean"; "Date"].

(** What the standard [valueOf] of its class answers for the object [o]
    at [l]. *)
Definition primitive_value (l : loc) (o : obj) : value :=
  match okind o with
  | KString s => VString s
  | KNumber n => VNumber n
  | KBoolean b => VBool b
  | KDate t => VNumber t
  | _ => VRef l
  end.

(** The object [o] at [l] has the [valueOf] of its class: no object of its
    prototype chain defines a property [valueOf], and the chain ends at
    the standard prototype of its class when [o] is a wrapper or a Date, at
    another standard prototype otherwise. *)
Definition valueOf_standard_at (h : heap) (l : loc) (o : obj) : Prop :=
  ∃ cls, find_property (S (length h)) h l "valueOf" = Some (FoundStd cls)
         ∧ wrapper_class (okind o)
           = if is_wrapper_class cls then Some cls else None.

Definition standard_valueOf (h : heap) : Prop :=
  ∀ l o, h !! l = Some o → is_callable o = false → valueOf_standard_at h l o.

(** *** The invariants of a clone in progress *)

Definition value_in (G : loc → Prop) (v : value) : Prop :=
  match v with VRef l => G l | _ => True end.

(** Every non-callable object of the heap is one the [switch] supports. *)
Definition supported_heap (h : heap) : Prop :=
  ∀ l o, h !! l = Some o → is_callable o = false → is_Some (shell_of o).

(** Every non-callable object of the heap is supported or rejected. *)
Definition classified_heap (h : heap) : Prop :=
  ∀ l o, h !! l = Some o → is_callable o = false →
    is_Some (shell_of o) ∨ is_Some (rejection o).

(** The pairs original/clone a transfer map records. *)
Definition pairing (tMap : TransferMap) : list (loc * loc) :=
  omap (fun xy => match xy with
                  | (VRef a, VRef b) => Some (a, b)
                  | _ => None
                  end)
       (zip (inputs tMap) (outputs tMap)).

(** The transfer map [tm] and the heap [h] of a clone that started from
    the heap [h0]: the originals are untouched, they are distinct
    composites of [h0], and the outputs are exactly the objects allocated
    since. *)
Record Inv (h0 : heap) (tm : TransferMap) (h : heap) : Prop := {
  inv_low : ∀ l, l < length h0 → h !! l = h0 !! l;
  inv_size : length h0 ≤ length h;
  inv_len : length (inputs tm) = length (outputs tm);
  inv_in : ∀ x, x ∈ inputs tm → is_composite h0 x = true;
  inv_out : ∀ y, y ∈ outputs tm →
    ∃ l', y = VRef l' ∧ length h0 ≤ l' < length h;
  inv_nodup_in : NoDup (inputs tm);
  inv_nodup_out : NoDup (outputs tm);
  inv_fresh : ∀ l', length h0 ≤ l' → l' < length h → VRef l' ∈ outputs tm
}.
Arguments inv_low {h0 tm h}.
Arguments inv_size {h0 tm h}.
Arguments inv_len {h0 tm h}.
Arguments inv_in {h0 tm h}.
Arguments inv_out {h0 tm h}.
Arguments inv_nodup_in {h0 tm h}.
Arguments inv_nodup_out {h0 tm h}.
Arguments inv_fresh {h0 tm h}.

(** From [(tm, h)] to [(tm', h')]: both sequences and the heap only grow,
    and every entry added is complete, its output freshly allocated. *)
Record grows (h0 : heap) (tm : TransferMap) (h : heap) (tm' : TransferMap)
    (h' : heap) : Prop := {
  grows_in : inputs tm `prefix_of` inputs tm';
  grows_out : outputs tm `prefix_of` outputs tm';
  grows_heap : length h ≤ length h';
  grows_new : ∀ i x y, length (inputs tm) ≤ i →
    inputs tm' !! i = Some x → outputs tm' !! i = Some y →
    copied h0 tm' h' x y ∧ ∃ l', y = VRef l' ∧ length h ≤ l'
}.
Arguments grows_in {h0 tm h tm' h'}.
Arguments grows_out {h0 tm h tm' h'}.
Arguments grows_heap {h0 tm h tm' h'}.
Arguments grows_new {h0 tm h tm' h'}.

(** What a call [_iSClone(input, tMap)] that returns [out] guarantees. *)
Record Post (h0 : heap) (G : loc → Prop) (tm : TransferMap) (h : heap)
    (input out : value) (tm' : TransferMap) (h' : heap) : Prop := {
  post_inv : Inv h0 tm' h';
  post_grows : grows h0 tm h tm' h';
  post_out : out = img h0 tm' input;
  post_mapped : mapped h0 tm' input;
  post_frame : ∀ l, l < length h → h' !! l = h !! l;
  post_reach : value_in G input → (∀ x, x ∈ inputs tm → value_in G x) →
    ∀ x, x ∈ inputs tm' → value_in G x
}.

(** What the loop of [_handleCollectionClone] over [keys] guarantees, for
    the original [o] and the output at [l'], whose members were [P]. *)
Record LoopPost (h0 : heap) (G : loc → Prop) (o : obj) (l' : loc)
    (shp : proto) (shk : kind) (P : gmap string value) (keys : list string)
    (tm : TransferMap) (h : heap) (tm' : TransferMap) (h' : heap) : Prop := {
  lp_inv : Inv h0 tm' h';
  lp_grows : grows h0 tm h tm' h';
  lp_frame : ∀ l, l < length h → l ≠ l' → h' !! l = h !! l;
  lp_output : ∃ P', h' !! l' = Some (Obj shp shk P') ∧
    ∀ key, P' !! key =
      match (if decide (key ∈ keys) then oprops o !! key else None) with
      | Some v => Some (img h0 tm' v)
      | None => P !! key
      end;
  lp_mapped : ∀ key v, key ∈ keys → oprops o !! key = Some v →
    mapped h0 tm' v;
  lp_reach :
    (∀ k v, k ∈ keys → oprops o !! k = Some v → value_in G v) →
    (∀ x, x ∈ inputs tm → value_in G x) →
    ∀ x, x ∈ inputs tm' → value_in G x
}.

(** The exception [e] is the one some object of [G] is rejected with. *)
Definition rejected (h0 : heap) (G : loc → Prop) (e : exn) : Prop :=
  ∃ l o, G l ∧ h0 !! l = Some o ∧ is_callable o = false
         ∧ rejection o = Some e.

(** The outcomes of a recursive call with [n] units of fuel: a result with
    its guarantees; no exhaustion when the fuel exceeds the originals not
    yet recorded; and when, moreover, everything reachable is in the set
    [G] of objects that are supported or rejected, the run is never cut
    short, and what it throws is the rejection of an object of [G]. *)
Definition good_clone (procs : list value) (h0 : heap) (G : loc → Prop)
    (n : nat) (input : value) (tm : TransferMap) (h : heap)
    (r : result (value * TransferMap)) : Prop :=
  match r with
  | Ok (out, tm') st' =>
      procedures st' = procs ∧ Post h0 G tm h input out tm' (st_heap st')
  | Throw e _ =>
      length h0 < n + length (inputs tm) ∧ value_in G input →
      rejected h0 G e
  | Abort OutOfFuel => ¬ (length h0 < n + length (inputs tm))
  | Abort Stuck => ¬ (length h0 < n + length (inputs tm) ∧ value_in G input)
  end.

Definition clone_spec (procs : list value) (h0 : heap) (G : loc → Prop)
    (rec : value → TransferMap → M (value * TransferMap)) (n : nat) : Prop :=
  ∀ input tm h tr, Inv h0 tm h → closed_value h0 input →
    good_clone procs h0 G n input tm h (rec input tm (State h procs tr)).

Definition good_loop (procs : list value) (h0 : heap) (G : loc → Prop)
    (n : nat) (o : obj) (l' : loc) (shp : proto) (shk : kind)
    (P : gmap string value) (keys : list string) (tm : TransferMap)
    (h : heap) (r : result TransferMap) : Prop :=
  match r with
  | Ok tm' st' =>
      procedures st' = procs
      ∧ LoopPost h0 G o l' shp shk P keys tm h tm' (st_heap st')
  | Throw e _ =>
      length h0 < n + length (inputs tm)
      ∧ (∀ k v, k ∈ keys → oprops o !! k = Some v → value_in G v) →
      rejected h0 G e
  | Abort OutOfFuel => ¬ (length h0 < n + length (inputs tm))
  | Abort Stuck =>
      ¬ (length h0 < n + length (inputs tm)
         ∧ ∀ k v, k ∈ keys → oprops o !! k = Some v → value_in G v)
  end.


(** The built-in collections: generic records and arrays. *)
Definition is_collection (o : obj) : Prop :=
  okind o = KObject ∨ ∃ len, okind o = KArray len.

(** *** Decidable checks *)

Definition closed_valueb (h : heap) (v : value) : bool :=
  match v with VRef l => bool_decide (l < length h) | _ => true end.

Definition heap_closedb (h : heap) : bool :=
  forallb (fun o => forallb (fun kv => closed_valueb h kv.2)
                      (map_to_list (oprops o))) h.

Definition supported_heapb (h : heap) : bool :=
  forallb (fun o => is_callable o || bool_decide (is_Some (shell_of o))) h.


Definition no_proto_memberb (h : heap) : bool :=
  forallb (fun o => bool_decide (oprops o !! "__proto__" = None)) h.

Definition valueOf_standard_atb (h : heap) (l : loc) (o : obj) : bool :=
  match find_property (S (length h)) h l "valueOf" with
  | Some (FoundStd cls) =>
      bool_decide (wrapper_class (okind o)
                   = if is_wrapper_class cls then Some cls else None)
  | _ => false
  end.

Definition standard_valueOfb (h : heap) : bool :=
  forallb (fun b : bool => b)
    (imap (fun l o => is_callable o || valueOf_standard_atb h l o) h).

(** *** Plain objects *)

(** An object in the form the cloner produces: it is the shell the
    [switch] builds for it, members apart, and it has members only when it
    is a collection.  Records and arrays are plain when the array has
    [Array.prototype]; a wrapper, a date or a regular expression when it
    has the prototype of its class and no enumerable member, and the
    regular expression neither [sticky] nor [unicode] nor a [lastIndex]. *)
Definition is_plain (o : obj) : Prop :=
  ∃ c, shell_of o = Some (Obj (oproto o) (okind o) ∅, c)
       ∧ (c = false → oprops o = ∅).

Definition plain_heap (h : heap) : Prop :=
  ∀ l o, h !! l = Some o → is_callable o = false → is_plain o.

Definition is_plainb (o : obj) : bool :=
  match shell_of o with
  | Some (sh, c) =>
      bool_decide (oproto sh = oproto o) && bool_decide (okind sh = okind o)
      && (c || bool_decide (oprops o = ∅))
  | None => false
  end.

Definition plain_heapb (h : heap) : bool :=
  forallb (fun o => is_callable o || is_plainb o) h.

(** *** The test for HTML elements *)

(** No line terminator starts anywhere in [s]. *)
Fixpoint no_line_terminator (s : string) : bool :=
  match s with
  | EmptyString => true
  | String _ s' => negb (at_line_terminator s) && no_line_terminator s'
  end.

(** *** Identifiers bound to functions *)

(** The identifier [x] is bound to a function of the heap, whose code is
    [fid]. *)
Definition is_function (h : heap) (x : option value) (fid : nat) : Prop :=
  ∃ l o, x = Some (VRef l) ∧ h !! l = Some o ∧ okind o = KFunction fid.

(** ** Examples *)

(** A host with a few functions: detectors that always or never match,
    and copy functions that answer [undefined], [null] or a string. *)
Definition ex_host : host_env := fun fid this args h =>
  match fid with
  | 0 => HReturn (VBool true) h
  | 1 => HReturn VUndefined h
  | 2 => HReturn (VBool false) h
  | 3 => HReturn VNull h
  | 4 => HReturn (VString "custom") h
  | _ => HReturn VUndefined h
  end.

Definition ex_record (ps : list (string * value)) : obj :=
  Obj (PStd "Object") KObject (list_to_map ps).

Definition ex_function (fid : nat) (ps : list (string * value)) : obj :=
  Obj (PStd "Function") (KFunction fid) (list_to_map ps).

(** The number [5]. *)
Definition five : number := 4617315517961601024.

(** [a = {self: a, x: shared, y: shared, n: 5}] at 0, [shared = {}] at 1,
    five functions at 2..6, three procedure objects at 7..9, a function
    carrying [detect] and [copy] at 10, the array [[f, 5]] at 11, the
    sticky regular expression [/ab/giy] at 12 and one more procedure
    object at 13. *)
Definition ex_heap : heap :=
  [ ex_record [("self", VRef 0); ("x", VRef 1); ("y", VRef 1);
               ("n", VNumber five)];
    ex_record [];
    ex_function 0 [];
    ex_function 1 [];
    ex_function 2 [];
    ex_function 3 [];
    ex_function 4 [];
    ex_record [("detect", VRef 2); ("copy", VRef 3)];
    ex_record [("detect", VRef 4); ("copy", VRef 5)];
    ex_record [("detect", VRef 2); ("copy", VRef 6)];
    ex_function 0 [("detect", VRef 2); ("copy", VRef 6)];
    Obj (PStd "Array") (KArray 2)
      (list_to_map [("0", VRef 2); ("1", VNumber five)]);
    Obj (PStd "RegExp")
      (KRegExp (RegExp (Pattern "ab" false) true true false true false 3)) ∅;
    ex_record [("detect", VRef 2); ("copy", VRef 5)] ].

Definition ex_state (procs : list value) : state := State ex_heap procs [].

(** Three [set] calls, the last one for an original already recorded. *)
Definition ex_ops : list (value * value) :=
  [(VRef 0, VRef 5); (VRef 1, VRef 6); (VRef 0, VRef 7)].



(** The regular expression [/[\u{1F600}-\u{1F64F}]/u]: its source is a
    pattern with the [u] flag only. *)
Definition ex_unicode : heap :=
  [ Obj (PStd "RegExp")
      (KRegExp (RegExp (Pattern "[\u{1F600}-\u{1F64F}]" true)
                  false false false false true 0)) ∅ ].

(** A quiet NaN. *)
Definition NaN : number := 9221120237041090560.

(** A String wrapper with a member of its own at 0, [new Boolean(false)]
    at 1, a date at 2, an HTML element with an expando property at 3; a
    record at 5 that inherits [inherited] from the record at 4 and holds
    the wrapper at 1, the function at 6 and [null]; at 7 an array of length
    3 with a hole at index 1. *)
Definition ex_objects : heap :=
  [ Obj (PStd "String") (KString "abc") (list_to_map [("tag", VNumber five)]);
    Obj (PStd "Boolean") (KBoolean false) ∅;
    Obj (PStd "Date") (KDate five) ∅;
    Obj (PStd "HTMLDivElement") (KOther "HTMLDivElement" true)
      (list_to_map [("expando", VRef 1)]);
    ex_record [("inherited", VNumber five)];
    Obj (PObj 4) KObject
      (list_to_map [("own", VRef 1); ("f", VRef 6); ("n", VNull)]);
    ex_function 0 [];
    Obj (PStd "Array") (KArray 3)
      (list_to_map [("0", VRef 5); ("2", VString "z")]) ].

(** Objects the cloner rejects: an Error object at 0, [Object.create(null)]
    at 1, and at 2 a record with a data member named [valueOf]. *)
Definition ex_rejected : heap :=
  [ Obj (PStd "Error") (KOther "Error" false) ∅;
    Obj PNull KObject ∅;
    ex_record [("valueOf", VNumber five)] ].


(** Plain data: a record that holds itself, an array and a date; the array
    holds the record and a function. *)
Definition ex_plain : heap :=
  [ ex_record [("self", VRef 0); ("items", VRef 1); ("when", VRef 2)];
    Obj (PStd "Array") (KArray 2)
      (list_to_map [("0", VRef 0); ("1", VRef 3)]);
    Obj (PStd "Date") (KDate five) ∅;
    ex_function 0 [] ].

(** A module system: the object [module = {exports: {}}] at 0 and 1, and
    the functions [define] and [require] at 2 and 3; the module object [CY]
    at 4 and a global object at 5. *)
Definition ex_modules : heap :=
  [ ex_record [("exports", VRef 1)];
    ex_record [];
    ex_function 1 [];
    ex_function 1 [];
    ex_record [];
    ex_record [] ].

(** * Properties *)

Ltac munfold :=
  unfold mbind, M_bind, bind, mret, M_ret, ret, throw, stuck in *.
Ltac mrun H :=
  munfold; unfold lookup_obj;
  repeat (cbn [st_heap procedures trace]; rewrite ?H; cbv beta iota).
Ltac decide_eqb :=
  repeat match goal with
  | |- context [String.eqb ?a ?b] =>
      let v := eval vm_compute in (String.eqb a b) in
      match v with
      | true => change (String.eqb a b) with true
      | false => change (String.eqb a b) with false
      end
  end.

(** ** Strict equality and transfer maps *)

Lemma strict_equals_eq a b :
  strict_equals a b = true →
  a = b ∨ ∃ x y, a = VNumber x ∧ b = VNumber y ∧ num_is_NaN x = false ∧ num_is_NaN y = false
     ∧ (num_is_zero x = true ∧ num_is_zero y = true ∨ x = y).
Proof.
  unfold strict_equals.
  destruct a as [| | |x| |], b as [| | |y| |];
    try (intros H%bool_decide_eq_true; by left).
  intros [[Hx Hy]%negb_true_iff%orb_false_iff H]%andb_true_iff. right.
  exists x, y. repeat split; try done.
  apply orb_true_iff in H as [[? ?]%andb_true_iff|H%Z.eqb_eq]; auto.
Qed.

Lemma strict_equals_trans a b c :
  strict_equals a b = true → strict_equals b c = true → strict_equals a c = true.
Proof.
  intros Hab Hbc.
  destruct (strict_equals_eq _ _ Hab) as [->|(x & y & -> & -> & Hx & Hy & Hxy)]; [done|].
  destruct (strict_equals_eq _ _ Hbc) as [<-|(y' & z & [= <-] & -> & _ & Hz & Hyz)]; [done|].
  unfold strict_equals. rewrite Hx, Hz. cbn [orb negb andb].
  destruct Hxy as [[Hx0 Hy0]| ->], Hyz as [[Hy0' Hz0]| <-];
    rewrite ?Hx0, ?Hz0, ?Hy0, ?Hy0', ?Z.eqb_refl, ?orb_true_r; done.
Qed.

Lemma indexOf_from_shift xs x i :
  indexOf_from xs x i =
    if present xs x then (i + indexOf_from xs x 0)%Z else (-1)%Z.
Proof.
  revert i. induction xs as [|y ys IH]; intros i; simpl; [done|].
  destruct (strict_equals y x); simpl; [lia|].
  rewrite (IH (i + 1)%Z), (IH (0 + 1)%Z). destruct (present ys x); lia.
Qed.

Lemma indexOf_absent xs x : present xs x = false → indexOf xs x = (-1)%Z.
Proof. intros H. unfold indexOf. by rewrite indexOf_from_shift, H. Qed.

Lemma indexOf_present xs x :
  present xs x = true →
  ∃ n y, indexOf xs x = Z.of_nat n ∧ xs !! n = Some y ∧ strict_equals y x = true.
Proof.
  unfold indexOf. induction xs as [|y ys IH]; simpl; [done|].
  destruct (strict_equals y x) eqn:Hy; simpl.
  - intros _. by exists 0, y.
  - intros H. destruct (IH H) as (n & z & Hn & Hz & Hs).
    exists (S n), z. rewrite indexOf_from_shift, H, Hn. split; [lia|done].
Qed.

Lemma indexOf_present_iff xs x : present xs x = true ↔ indexOf xs x ≠ (-1)%Z.
Proof.
  split.
  - intros (n & ? & -> & _)%indexOf_present. lia.
  - intros H. destruct (present xs x) eqn:Hp; [done|]. by apply indexOf_absent in Hp.
Qed.

Lemma indexOf_from_app xs ys x i :
  indexOf_from (xs ++ ys) x i =
    if present xs x then indexOf_from xs x i
    else indexOf_from ys x (i + Z.of_nat (length xs))%Z.
Proof.
  revert i. induction xs as [|y l IH]; intros i; simpl.
  - by rewrite Z.add_0_r.
  - destruct (strict_equals y x); simpl; [done|].
    rewrite IH. destruct (present l x); [done|]. f_equal. lia.
Qed.

Lemma indexOf_app xs ys x :
  indexOf (xs ++ ys) x =
    if present xs x then indexOf xs x
    else if present ys x then (Z.of_nat (length xs) + indexOf ys x)%Z
    else (-1)%Z.
Proof.
  unfold indexOf. rewrite indexOf_from_app.
  destruct (present xs x); [done|]. by rewrite indexOf_from_shift.
Qed.

Lemma present_app xs ys x : present (xs ++ ys) x = present xs x || present ys x.
Proof. apply existsb_app. Qed.

Lemma first_registered_app ops1 ops2 q :
  first_registered (ops1 ++ ops2) q =
    if present ops1.*1 q then first_registered ops1 q
    else first_registered ops2 q.
Proof.
  induction ops1 as [|[i o] ops1 IH]; simpl; [done|].
  destruct (strict_equals i q); simpl; done.
Qed.

Lemma present_elem xs x :
  present xs x = true ↔ ∃ y, y ∈ xs ∧ strict_equals y x = true.
Proof.
  unfold present. rewrite existsb_exists.
  split; intros (y & Hy & ?); exists y; split; try done; by apply list_elem_of_In.
Qed.

Lemma TransferMap_set_no_op tm input output :
  indexOf (inputs tm) input ≠ (-1)%Z → TransferMap_set tm input output = tm.
Proof.
  intros H. unfold TransferMap_set.
  destruct (Z.eqb_spec (indexOf (inputs tm) input) (-1)); [done|done].
Qed.

Lemma TransferMap_get_found tm q n :
  indexOf (inputs tm) q = Z.of_nat n →
  TransferMap_get tm q = default VUndefined (outputs tm !! n).
Proof.
  intros H. unfold TransferMap_get, array_get. rewrite H, Nat2Z.id.
  destruct (Z.gtb_spec (Z.of_nat n) (-1)); [|lia].
  destruct (Z.ltb_spec (Z.of_nat n) 0); [lia|done].
Qed.

Lemma TransferMap_get_absent tm q :
  indexOf (inputs tm) q = (-1)%Z → TransferMap_get tm q = VNull.
Proof. intros H. unfold TransferMap_get. by rewrite H. Qed.

Lemma register_all_snoc ops i o :
  register_all (ops ++ [(i, o)]) = TransferMap_set (register_all ops) i o.
Proof. unfold register_all. by rewrite foldl_snoc. Qed.

(** The invariant of a transfer map built by [set] calls. *)
Lemma register_all_inv ops :
  let tm := register_all ops in
  length (inputs tm) = length (outputs tm)
  ∧ (∀ q, present (inputs tm) q = present ops.*1 q)
  ∧ (∀ q, TransferMap_get tm q = first_registered ops q)
  ∧ (∀ i j x y, i < j → inputs tm !! i = Some x → inputs tm !! j = Some y →
       strict_equals x y = false).
Proof.
  induction ops as [|[i o] ops IH] using rev_ind; [by repeat split|].
  rewrite register_all_snoc. destruct IH as (Hlen & Hpres & Hget & Hnd).
  set (tm := register_all ops) in *.
  unfold TransferMap_set.
  destruct (Z.eqb_spec (indexOf (inputs tm) i) (-1)) as [Habs|Hfound]; simpl.
  - (* a new identity: both sequences grow *)
    assert (present (inputs tm) i = false) as Hi.
    { destruct (present (inputs tm) i) eqn:E; [|done].
      by apply indexOf_present_iff in E. }
    repeat split.
    + by rewrite !length_app, Hlen.
    + intros q. by rewrite fmap_app, !present_app, Hpres.
    + intros q.
      rewrite first_registered_app, <- Hpres, <- Hget. simpl.
      destruct (present (inputs tm) q) eqn:Hq.
      * destruct (indexOf_present _ _ Hq) as (n & y & Hidx & Hn & _).
        rewrite (TransferMap_get_found tm q n Hidx).
        rewrite (TransferMap_get_found _ q n); simpl.
        -- rewrite lookup_app_l; [done|]. rewrite <- Hlen. by eapply lookup_lt_Some.
        -- by rewrite indexOf_app, Hq.
      * destruct (strict_equals i q) eqn:E.
        -- rewrite (TransferMap_get_found _ q (length (inputs tm))); simpl.
           ++ by rewrite Hlen, lookup_app_r, Nat.sub_diag.
           ++ rewrite indexOf_app, Hq. unfold indexOf. simpl. rewrite E. simpl. lia.
        -- apply TransferMap_get_absent. simpl.
           rewrite indexOf_app, Hq. simpl. by rewrite E.
    + intros a b x y Hab Hx Hy.
      destruct (decide (b < length (inputs tm))) as [Hb|Hb].
      * rewrite lookup_app_l in Hx, Hy by lia. eauto.
      * apply lookup_lt_Some in Hy as Hb'. rewrite length_app in Hb'. simpl in Hb'.
        assert (b = length (inputs tm)) as -> by lia.
        rewrite lookup_app_l in Hx by lia.
        rewrite lookup_app_r, Nat.sub_diag in Hy by lia. injection Hy as <-.
        destruct (strict_equals x i) eqn:E; [|done].
        assert (present (inputs tm) i = true); [|congruence].
        apply present_elem. exists x. split; [|done]. by eapply list_elem_of_lookup_2.
  - (* an identity already recorded: no change *)
    assert (present (inputs tm) i = true) as Hi by by apply indexOf_present_iff.
    repeat split; try done.
    + intros q. rewrite fmap_app, present_app, <- Hpres. simpl. rewrite orb_false_r.
      destruct (present (inputs tm) q) eqn:Hq; [done|]. simpl.
      destruct (strict_equals i q) eqn:E; [|done].
      apply present_elem in Hi as (y & Hy & Hyi).
      rewrite <- Hq. apply present_elem. exists y. split; [done|].
      by eapply strict_equals_trans.
    + intros q. rewrite first_registered_app, <- Hpres, Hget. simpl.
      destruct (present (inputs tm) q) eqn:Hq; [done|].
      destruct (strict_equals i q) eqn:E.
      * exfalso. apply present_elem in Hi as (y & Hy & Hyi).
        assert (present (inputs tm) q = true); [|congruence].
        apply present_elem. exists y. split; [done|]. by eapply strict_equals_trans.
      * rewrite <- Hget. unfold TransferMap_get. by rewrite (indexOf_absent _ _ Hq).
Qed.

(** ** The custom clone resolver *)

Section ResolverFacts.
Context (host : host_env).

Lemma declined_events_snoc base newer q obj :
  declined_events base (newer ++ [q]) obj
  = [ConsoleLog "procIdx:" (base + length newer); Invoke q "detect" [obj]]
    ++ declined_events base newer obj.
Proof.
  revert base. induction newer as [|x l IH]; intros base; simpl.
  - by rewrite Nat.add_0_r.
  - rewrite IH. by rewrite Nat.add_succ_r.
Qed.

Lemma attempt_loop_step procs idx q obj h tr :
  procs !! idx = Some q →
  _attemptCustomClone_loop host (S idx) obj (State h procs tr)
  = (detected ← call_method host q "detect" [obj];
     if truthy detected then call_method host q "copy" [obj]
     else _attemptCustomClone_loop host idx obj)
      (State h procs (tr ++ [ConsoleLog "procIdx:" idx])).
Proof.
  intros Hq. cbn [_attemptCustomClone_loop]. munfold. unfold emit, procedure_at.
  cbn. by rewrite Hq.
Qed.

Lemma attempt_loop_declined older newer rest obj h tr :
  (∀ q, q ∈ newer → declines host (older ++ newer ++ rest) obj h q) →
  _attemptCustomClone_loop host (length older + length newer) obj
    (State h (older ++ newer ++ rest) tr)
  = _attemptCustomClone_loop host (length older) obj
      (State h (older ++ newer ++ rest)
         (tr ++ declined_events (length older) newer obj)).
Proof.
  revert rest tr. induction newer as [|q newer IH] using rev_ind; intros rest tr Hd.
  - simpl. by rewrite Nat.add_0_r, app_nil_r.
  - rewrite length_app, Nat.add_assoc. simpl. rewrite Nat.add_1_r.
    rewrite (attempt_loop_step _ _ q).
    2:{ rewrite lookup_app_r by lia. rewrite <- app_assoc.
        rewrite lookup_app_r by lia.
        by replace (length older + length newer - length older - length newer) with 0 by lia. }
    destruct (Hd q) as (d & Hq & Hf); [set_solver|].
    munfold. rewrite Hq, Hf.
    rewrite <- (app_assoc newer [q] rest) in *.
    rewrite IH.
    + rewrite declined_events_snoc. by rewrite <- !app_assoc.
    + intros q' Hq'. apply Hd. set_solver.
Qed.

Lemma attempt_none_match procs obj h tr :
  (∀ q, q ∈ procs → declines host procs obj h q) →
  _attemptCustomClone host obj (State h procs tr)
  = Ok VUndefined (State h procs (tr ++ declined_events 0 procs obj)).
Proof.
  intros Hd. unfold _attemptCustomClone. munfold. cbn.
  pose proof (attempt_loop_declined [] procs [] obj h tr) as H.
  simpl in H. rewrite app_nil_r in H. rewrite H; [done|]. done.
Qed.

Lemma attempt_first_match older p newer obj h tr d h1 :
  let procs := older ++ p :: newer in
  (∀ q, q ∈ newer → declines host procs obj h q) →
  detector_answers host procs obj h p d h1 → truthy d = true →
  _attemptCustomClone host obj (State h procs tr)
  = call_method host p "copy" [obj]
      (State h1 procs
         (tr ++ declined_events (S (length older)) newer obj
             ++ [ConsoleLog "procIdx:" (length older); Invoke p "detect" [obj]])).
Proof.
  intros procs Hd Hp Ht. unfold _attemptCustomClone. munfold. cbn.
  subst procs.
  assert (older ++ p :: newer = (older ++ [p]) ++ newer ++ []) as Hsplit
    by (by rewrite app_nil_r, <- app_assoc).
  rewrite Hsplit in *.
  replace (length ((older ++ [p]) ++ newer ++ []))
    with (length (older ++ [p]) + length newer)
    by (rewrite !length_app; simpl; lia).
  rewrite attempt_loop_declined by done.
  rewrite length_app. simpl. rewrite Nat.add_1_r.
  rewrite (attempt_loop_step _ _ p).
  2:{ rewrite <- app_assoc. by rewrite lookup_app_r, Nat.sub_diag by lia. }
  munfold. rewrite Hp, Ht. by rewrite <- !app_assoc.
Qed.
End ResolverFacts.

(** ** Class tags and shells *)

Lemma string_length_app (s t : string) :
  String.length (s +:+ t) = String.length s + String.length t.
Proof.
  induction s as [|a s IH]; [done|].
  change (String a s +:+ t) with (String a (s +:+ t)). simpl. by rewrite IH.
Qed.

Lemma string_app_inv_tail (a b c : string) : a +:+ c = b +:+ c → a = b.
Proof.
  revert b. induction a as [|x a IH]; intros [|y b] H.
  - done.
  - apply (f_equal String.length) in H. rewrite !string_length_app in H.
    simpl in H. lia.
  - apply (f_equal String.length) in H. rewrite !string_length_app in H.
    simpl in H. lia.
  - change (String x (a +:+ c) = String y (b +:+ c)) in H.
    injection H as -> H. f_equal. by apply IH.
Qed.

Lemma eqb_tag (cls lit : string) :
  String.eqb ("[object " +:+ cls +:+ "]") ("[object " +:+ lit +:+ "]")
  = String.eqb cls lit.
Proof.
  destruct (String.eqb_spec cls lit) as [->|Hne].
  - apply String.eqb_refl.
  - apply String.eqb_neq. intros H. apply Hne.
    apply (string_app_inv_tail _ _ "]"). 
    change (String.append "[object " (cls +:+ "]") = String.append "[object " (lit +:+ "]")) in H.
    by apply (inj (String.append "[object ")) in H.
Qed.

Lemma clone_shell_tag (input val : value) (cls : string) :
  clone_shell input val ("[object " +:+ cls +:+ "]") =
    if String.eqb cls "String" then
      output ← new_String val; mret (output, false)
    else if String.eqb cls "Number" then
      output ← new_Number val; mret (output, false)
    else if String.eqb cls "Boolean" then
      output ← new_Boolean val; mret (output, false)
    else if String.eqb cls "Date" then
      output ← new_Date val; mret (output, false)
    else if String.eqb cls "RegExp" then
      output ← _handleRegExpClone val; mret (output, false)
    else if String.eqb cls "Array" then
      len ← array_length input;
      output ← new_Array len; mret (output, true)
    else if String.eqb cls "Object" then
      p ← getPrototypeOf input;
      output ← Object_create p; mret (output, true)
    else
      isNode ← (if _htmlElementRE_test ("[object " +:+ cls +:+ "]")
                then t ← typeof_cloneNode input;
                     mret (String.eqb t "function")
                else mret false);
      if isNode : bool then
        output ← cloneNode input; mret (output, false)
      else
        throw (TypeError ("Don't know how to clone object of type "
                          +:+ "[object " +:+ cls +:+ "]")).
Proof.
  unfold clone_shell.
  change "[object String]" with ("[object " +:+ "String" +:+ "]").
  change "[object Number]" with ("[object " +:+ "Number" +:+ "]").
  change "[object Boolean]" with ("[object " +:+ "Boolean" +:+ "]").
  change "[object Date]" with ("[object " +:+ "Date" +:+ "]").
  change "[object RegExp]" with ("[object " +:+ "RegExp" +:+ "]").
  change "[object Array]" with ("[object " +:+ "Array" +:+ "]").
  change "[object Object]" with ("[object " +:+ "Object" +:+ "]").
  by rewrite !eqb_tag.
Qed.

Lemma bind_run {A B} (m : M A) (k : A → M B) s :
  (m ≫= k) s = match m s with
               | Ok a s' => k a s'
               | Throw e s' => Throw e s'
               | Abort w => Abort w
               end.
Proof. reflexivity. Qed.

(** The [switch] agrees with [shell_of], for an object whose [valueOf] is
    the standard one. *)
Lemma shell_run_supported host l o h procs tr sh c :
  h !! l = Some o →
  call_method host (VRef l) "valueOf" [] (State h procs tr)
  = Ok (primitive_value l o) (State h procs tr) →
  shell_of o = Some (sh, c) →
  shell_run host (VRef l) (State h procs tr)
  = Ok (VRef (length h), c) (State (h ++ [sh]) procs tr).
Proof.
  intros Hl Hval Hs. unfold shell_run. rewrite bind_run, Hval.
  unfold _toString. mrun Hl.
  rewrite clone_shell_tag.
  destruct o as [p k ps]. unfold shell_of in Hs.
  unfold primitive_value. cbn [okind oproto] in *.
  destruct k as [s|n|b|t|r|len| |fid|cls cn];
    simplify_eq; cbn [class_name]; decide_eqb; cbv iota.
  - reflexivity.
  - reflexivity.
  - reflexivity.
  - reflexivity.
  - destruct (unicode_only (source r)) eqn:Hu; [done|]. simplify_eq.
    unfold _handleRegExpClone, regexp_of. mrun Hl.
    cbn [okind]. destruct r as [[txt uo] [] [] [] y u li];
      cbn in Hu; subst uo; reflexivity.
  - unfold array_length. mrun Hl. reflexivity.
  - unfold getPrototypeOf. mrun Hl. reflexivity.
  - destruct (String.eqb_spec cls "Boolean") as [->|HB].
    { simplify_eq. reflexivity. }
    destruct (String.eqb_spec cls "Object") as [->|HO].
    { simplify_eq. decide_eqb. cbv iota.
      unfold getPrototypeOf. mrun Hl. reflexivity. }
    destruct (is_stuck_class cls) eqn:Hst; [done|].
    unfold is_stuck_class in Hst. cbn [existsb] in Hst.
    repeat (apply orb_false_iff in Hst as [? Hst]).
    repeat match goal with H : String.eqb _ _ = false |- _ => rewrite H; clear H end.
    destruct (String.eqb_spec cls "Object"); [done|].
    destruct (_htmlElementRE_test _) eqn:Hre; [|done].
    destruct cn; [|done]. cbn [andb] in Hs. simplify_eq.
    unfold typeof_cloneNode. mrun Hl. cbn [okind].
    decide_eqb. cbv iota. unfold cloneNode. mrun Hl. reflexivity.
Qed.

Lemma shell_run_unsupported host l o h procs tr :
  h !! l = Some o →
  call_method host (VRef l) "valueOf" [] (State h procs tr)
  = Ok (primitive_value l o) (State h procs tr) →
  shell_of o = None →
  (∃ e, shell_run host (VRef l) (State h procs tr) = Throw e (State h procs tr))
  ∨ shell_run host (VRef l) (State h procs tr) = Abort Stuck.
Proof.
  intros Hl Hval Hs. unfold shell_run. rewrite bind_run, Hval.
  unfold _toString. mrun Hl.
  rewrite clone_shell_tag.
  destruct o as [p k ps]. unfold shell_of in Hs.
  unfold primitive_value. cbn [okind oproto] in *.
  destruct k as [s|n|b|t|r|len| |fid|cls cn];
    simplify_eq; cbn [class_name]; decide_eqb; cbv iota.
  - destruct (unicode_only (source r)) eqn:Hu; [|done]. left.
    unfold _handleRegExpClone, regexp_of. mrun Hl.
    cbn [okind]. destruct r as [[txt uo] [] [] [] y u li];
      cbn in Hu; subst uo; by eexists.
  - left. by eexists.
  - destruct (String.eqb_spec cls "Boolean") as [->|HB]; [done|].
    destruct (String.eqb_spec cls "Object") as [->|HO]; [done|].
    destruct (is_stuck_class cls) eqn:Hst.
    + unfold is_stuck_class in Hst. cbn [existsb] in Hst.
      rewrite !orb_true_iff, !String.eqb_eq in Hst.
      destruct Hst as [->|[->|[->|[->|[->|[=]]]]]]; decide_eqb; cbv iota; right;
        unfold _handleRegExpClone, regexp_of, array_length; by mrun Hl.
    + unfold is_stuck_class in Hst. cbn [existsb] in Hst.
      repeat (apply orb_false_iff in Hst as [? Hst]).
      repeat match goal with H : String.eqb _ _ = false |- _ => rewrite H; clear H end.
      left.
      destruct (_htmlElementRE_test _) eqn:Hre; [|by eexists].
      unfold typeof_cloneNode. mrun Hl. cbn [okind].
      destruct cn; [done|]. decide_eqb. cbv iota. by eexists.
Qed.

(** The [switch] throws what [rejection] says. *)
Lemma shell_run_rejection host l o h procs tr e :
  h !! l = Some o →
  call_method host (VRef l) "valueOf" [] (State h procs tr)
  = Ok (primitive_value l o) (State h procs tr) →
  rejection o = Some e →
  shell_run host (VRef l) (State h procs tr) = Throw e (State h procs tr).
Proof.
  intros Hl Hval Hr. unfold shell_run. rewrite bind_run, Hval.
  unfold _toString. mrun Hl.
  rewrite clone_shell_tag.
  destruct o as [p k ps]. unfold rejection in Hr.
  unfold primitive_value. cbn [okind oproto] in *.
  destruct k as [s|n|b|t|r|len| |fid|cls cn];
    try discriminate; cbn [class_name]; decide_eqb; cbv iota.
  - destruct (unicode_only (source r)) eqn:Hu; [|done]. simplify_eq.
    unfold _handleRegExpClone, regexp_of. mrun Hl.
    cbn [okind]. destruct r as [[txt uo] [] [] [] y u li];
      cbn in Hu; subst uo; reflexivity.
  - destruct (existsb _ _ || _) eqn:Hex; [done|]. simplify_eq.
    apply orb_false_iff in Hex as [Hex Hhtml]. cbn [existsb] in Hex.
    repeat (apply orb_false_iff in Hex as [? Hex]).
    repeat match goal with H : String.eqb _ _ = false |- _ => rewrite H; clear H end.
    destruct (_htmlElementRE_test _) eqn:Hre; [|done].
    unfold typeof_cloneNode. mrun Hl. cbn [okind].
    destruct cn; [done|]. by decide_eqb.
Qed.

Lemma shell_of_rejection o : is_Some (shell_of o) → rejection o = None.
Proof.
  unfold shell_of, rejection. intros [x Hx].
  destruct (okind o) as [s|n|b|t|r|len| |fid|cls cn]; try done.
  - by destruct (unicode_only (source r)).
  - cbn [existsb].
    destruct (String.eqb cls "Boolean"); [by rewrite !orb_true_r|].
    destruct (String.eqb cls "Object"); [by rewrite !orb_true_r|].
    destruct (is_stuck_class cls); [done|].
    by destruct (_htmlElementRE_test _ && cn); [rewrite !orb_true_r|].
Qed.

(** ** References in transfer maps; running the primitives *)

Lemma strict_equals_ref (y : value) (l : loc) :
  strict_equals y (VRef l) = bool_decide (y = VRef l).
Proof. by destruct y. Qed.

Lemma present_ref xs l : present xs (VRef l) = true ↔ VRef l ∈ xs.
Proof.
  rewrite present_elem. split.
  - intros (y & Hy & He). rewrite strict_equals_ref in He.
    by apply bool_decide_eq_true in He as ->.
  - intros H. exists (VRef l). split; [done|].
    rewrite strict_equals_ref. by apply bool_decide_eq_true.
Qed.

Lemma present_ref_false xs l : present xs (VRef l) = false ↔ VRef l ∉ xs.
Proof.
  rewrite <- present_ref. destruct (present xs (VRef l)); split; congruence.
Qed.

Lemma TransferMap_get_ref tm l i :
  NoDup (inputs tm) → inputs tm !! i = Some (VRef l) →
  TransferMap_get tm (VRef l) = default VUndefined (outputs tm !! i).
Proof.
  intros Hnd Hi.
  assert (present (inputs tm) (VRef l) = true) as Hp.
  { apply present_ref. by eapply list_elem_of_lookup_2. }
  destruct (indexOf_present _ _ Hp) as (n & y & Hidx & Hn & He).
  rewrite strict_equals_ref in He. apply bool_decide_eq_true in He as ->.
  rewrite (NoDup_lookup _ _ _ _ Hnd Hn Hi) in Hidx.
  by apply TransferMap_get_found.
Qed.

Lemma TransferMap_get_miss tm v :
  present (inputs tm) v = false → TransferMap_get tm v = VNull.
Proof. intros H. apply TransferMap_get_absent. by apply indexOf_absent. Qed.

Lemma TransferMap_set_new tm v y :
  present (inputs tm) v = false →
  TransferMap_set tm v y = mkTransferMap (inputs tm ++ [v]) (outputs tm ++ [y]).
Proof.
  intros H. unfold TransferMap_set. by rewrite (indexOf_absent _ _ H).
Qed.

Lemma TransferMap_get_prefix tm tm' v :
  inputs tm `prefix_of` inputs tm' → outputs tm `prefix_of` outputs tm' →
  length (inputs tm) = length (outputs tm) →
  present (inputs tm) v = true →
  TransferMap_get tm' v = TransferMap_get tm v.
Proof.
  intros [ei Hi] [eo Ho] Hlen Hp.
  destruct (indexOf_present _ _ Hp) as (n & y & Hidx & Hn & _).
  rewrite (TransferMap_get_found tm v n Hidx).
  rewrite (TransferMap_get_found tm' v n).
  - rewrite Ho, lookup_app_l; [done|]. rewrite <- Hlen. by eapply lookup_lt_Some.
  - by rewrite Hi, indexOf_app, Hp.
Qed.

Lemma present_prefix xs ys v :
  xs `prefix_of` ys → present xs v = true → present ys v = true.
Proof. intros [e ->] H. by rewrite present_app, H. Qed.

Lemma is_composite_inv h v :
  is_composite h v = true →
  ∃ l o, v = VRef l ∧ h !! l = Some o ∧ is_callable o = false.
Proof.
  destruct v; try done. simpl. destruct (h !! l) as [o|] eqn:E; [|done].
  intros H. exists l, o. split; [done|]. split; [done|].
  by destruct (is_callable o).
Qed.

Lemma img_prefix h tm tm' v :
  inputs tm `prefix_of` inputs tm' → outputs tm `prefix_of` outputs tm' →
  length (inputs tm) = length (outputs tm) →
  mapped h tm v → img h tm' v = img h tm v.
Proof.
  intros Hi Ho Hlen Hm. unfold img.
  destruct (is_composite h v) eqn:E; [|done].
  apply TransferMap_get_prefix; auto.
Qed.

Lemma mapped_prefix h tm tm' v :
  inputs tm `prefix_of` inputs tm' → mapped h tm v → mapped h tm' v.
Proof. intros Hi Hm Hc. eapply present_prefix; eauto. Qed.

Lemma shell_of_props o sh c : shell_of o = Some (sh, c) → oprops sh = ∅.
Proof.
  unfold shell_of. destruct (okind o); intros; repeat case_match; by simplify_eq.
Qed.


(** Running the primitives on a known heap. *)
Lemma run_lookup_obj l o h procs tr :
  h !! l = Some o → lookup_obj l (State h procs tr) = Ok o (State h procs tr).
Proof. intros H. unfold lookup_obj. cbn. by rewrite H. Qed.

Lemma run_typeof_ref l o h procs tr :
  h !! l = Some o →
  typeof_ (VRef l) (State h procs tr)
  = Ok (if is_callable o then "function" else "object") (State h procs tr).
Proof. intros H. unfold typeof_. by mrun H. Qed.

Lemma run_typeof_prim v st :
  (∀ l, v ≠ VRef l) → ∃ t, typeof_ v st = Ok t st ∧ (t = "object" → v = VNull)
     ∧ (t = "undefined" ↔ v = VUndefined).
Proof.
  intros Hv. destruct v; cbn; try (eexists; split; [reflexivity|]; split; done).
  by destruct (Hv l).
Qed.

Lemma run_hasProp l o h procs tr prop :
  h !! l = Some o →
  _hasProp (VRef l) prop (State h procs tr)
  = Ok (bool_decide (is_Some (oprops o !! prop))) (State h procs tr).
Proof. intros H. unfold _hasProp. by mrun H. Qed.

Lemma run_Get_own l o h procs tr prop v :
  h !! l = Some o → oprops o !! prop = Some v →
  Get (VRef l) prop (State h procs tr) = Ok v (State h procs tr).
Proof.
  intros H Hv. unfold Get, get_heap. munfold. cbn. by rewrite H, Hv.
Qed.

Lemma run_put l o h procs tr prop v :
  h !! l = Some o → prop ≠ "__proto__" →
  put (VRef l) prop v (State h procs tr)
  = Ok tt (State (<[l := Obj (oproto o) (okind o) (<[prop := v]> (oprops o))]> h)
             procs tr).
Proof.
  intros H Hp. unfold put, get_heap, set_heap. mrun H.
  apply String.eqb_neq in Hp. by rewrite Hp.
Qed.

Lemma run_for_in l o h procs tr :
  h !! l = Some o →
  for_in (VRef l) (State h procs tr)
  = Ok (remove_dups (own_keys o ++ inherited_keys (length h) h (oproto o)))
      (State h procs tr).
Proof. intros H. unfold for_in, get_heap. by mrun H. Qed.

Lemma own_keys_elem o k : k ∈ own_keys o ↔ is_Some (oprops o !! k).
Proof.
  unfold own_keys. rewrite list_elem_of_fmap. split.
  - intros ([k' v] & -> & H%elem_of_map_to_list). by eexists.
  - intros [v H]. exists (k, v). split; [done|]. by apply elem_of_map_to_list.
Qed.


(** ** The standard [valueOf] *)

(** A successful lookup does not depend on the fuel, nor on what the heap
    holds above the objects it visits. *)
Lemma find_property_ext n n' h0 h l name r :
  find_property n h0 l name = Some r → n ≤ n' →
  (∀ l', l' < length h0 → h !! l' = h0 !! l') →
  find_property n' h l name = Some r.
Proof.
  intros Hf Hn Hlow. revert n' l Hf Hn.
  induction n as [|n IH]; intros n' l Hf Hn; [done|].
  destruct n' as [|n']; [lia|]. cbn in Hf |- *.
  destruct (h0 !! l) as [o|] eqn:Hl; [|done].
  rewrite Hlow, Hl by (by eapply lookup_lt_Some).
  destruct (oprops o !! name); [done|].
  destruct (oproto o); try done. apply IH; [done|lia].
Qed.

Lemma run_valueOf host h0 h procs tr l o :
  h0 !! l = Some o → valueOf_standard_at h0 l o →
  (∀ l', l' < length h0 → h !! l' = h0 !! l') → length h0 ≤ length h →
  call_method host (VRef l) "valueOf" [] (State h procs tr)
  = Ok (primitive_value l o) (State h procs tr).
Proof.
  intros Hl (cls & Hf & Hw) Hlow Hlen.
  assert (h !! l = Some o) as Hlh.
  { rewrite Hlow; [done|]. by eapply lookup_lt_Some. }
  unfold call_method. rewrite bind_run. cbn [get_heap st_heap].
  rewrite (find_property_ext _ (S (length h)) h0 h l _ _ Hf) by (done || lia).
  change (String.eqb "valueOf" "valueOf") with true. cbv iota.
  unfold std_valueOf, primitive_value. rewrite bind_run, (run_lookup_obj l o) by done.
  unfold is_wrapper_class in Hw. cbn [existsb] in Hw.
  destruct (String.eqb_spec cls "String") as [->|?].
  { destruct (okind o); by simplify_eq. }
  destruct (String.eqb_spec cls "Number") as [->|?].
  { destruct (okind o); by simplify_eq. }
  destruct (String.eqb_spec cls "Boolean") as [->|?].
  { destruct (okind o); by simplify_eq. }
  destruct (String.eqb_spec cls "Date") as [->|?].
  { destruct (okind o); by simplify_eq. }
  cbn in Hw. by destruct (okind o).
Qed.

(** ** The invariant of the cloner *)

Lemma Inv_prefix h tm h' : Inv h tm h' → h `prefix_of` h'.
Proof.
  intros HI. exists (drop (length h) h').
  rewrite <- (take_drop (length h) h') at 1. f_equal.
  apply list_eq. intros i. destruct (decide (i < length h)) as [Hlt|Hge].
  - rewrite lookup_take_lt by done. by apply (inv_low HI).
  - rewrite lookup_take_ge by lia. symmetry. apply lookup_ge_None. lia.
Qed.

Section EngineInvariant.
Context (host : host_env) (procs : list value) (h0 : heap).
Hypothesis Hdecl : resolver_declines host procs h0.
Hypothesis Hclosed : heap_closed h0.
Hypothesis Hstd : standard_valueOf h0.
Hypothesis Hnoproto : no_proto_member h0.
Context (G : loc → Prop).
Hypothesis HG : ∀ l o, G l → h0 !! l = Some o → is_callable o = false →
  (is_Some (shell_of o) ∨ is_Some (rejection o))
  ∧ ∀ k v, oprops o !! k = Some v → value_in G v.

Lemma grows_refl tm h : grows h0 tm h tm h.
Proof.
  split; try done. intros i x y Hi Hx. apply lookup_lt_Some in Hx. lia.
Qed.

Lemma copied_mono tm h tm' h' x y l' :
  inputs tm `prefix_of` inputs tm' → outputs tm `prefix_of` outputs tm' →
  length (inputs tm) = length (outputs tm) →
  y = VRef l' → h' !! l' = h !! l' →
  copied h0 tm h x y → copied h0 tm' h' x y.
Proof.
  intros Hi Ho Hlen -> Hl' (l & l2 & o & sh & c & -> & [= <-] & Ho0 & Hsh & Hout & Hm).
  exists l, l', o, sh, c. repeat split; try done.
  - rewrite Hl', Hout. do 2 f_equal. destruct c; [|done].
    apply map_fmap_ext. intros k v Hk. symmetry.
    apply img_prefix; [done..|by eapply Hm].
  - intros -> k v Hk. eapply mapped_prefix; [done|by eapply Hm].
Qed.

Lemma grows_trans tm h tm1 h1 tm2 h2 :
  Inv h0 tm1 h1 →
  grows h0 tm h tm1 h1 → grows h0 tm1 h1 tm2 h2 →
  (∀ l, length h ≤ l → l < length h1 → h2 !! l = h1 !! l) →
  grows h0 tm h tm2 h2.
Proof.
  intros HI [Hi1 Ho1 Hh1 Hn1] [Hi2 Ho2 Hh2 Hn2] Hfr. split.
  - by etrans.
  - by etrans.
  - lia.
  - intros i x y Hi Hx Hy.
    destruct (decide (i < length (inputs tm1))) as [Hlt|Hge].
    + destruct Hi2 as [ei Hei], Ho2 as [eo Heo].
      assert (inputs tm1 !! i = Some x) as Hx1.
      { rewrite Hei in Hx. by rewrite lookup_app_l in Hx. }
      assert (outputs tm1 !! i = Some y) as Hy1.
      { rewrite Heo in Hy. rewrite lookup_app_l in Hy; [done|].
        by rewrite <- (inv_len HI). }
      destruct (Hn1 i x y Hi Hx1 Hy1) as [Hc (l' & -> & Hl')].
      split; [|eauto].
      eapply copied_mono; [by eexists|by eexists|apply HI|done| |done].
      apply Hfr; [done|].
      destruct (inv_out HI (VRef l')) as (? & [= <-] & ?); [|lia].
      by eapply list_elem_of_lookup_2.
    + destruct (Hn2 i x y) as [Hc (l' & -> & Hl')]; [lia|done|done|].
      split; [done|]. exists l'. split; [done|]. lia.
Qed.

Lemma Inv_put tm h l' ob :
  Inv h0 tm h → length h0 ≤ l' → Inv h0 tm (<[l' := ob]> h).
Proof.
  intros [] Hl'. split; try done.
  - intros l Hl. rewrite list_lookup_insert_ne by lia. auto.
  - by rewrite length_insert.
  - intros y Hy. rewrite length_insert. auto.
  - intros l2 ? Hl2. rewrite length_insert in Hl2. auto.
Qed.

Lemma loop_spec rec n l o l' shp shk :
  clone_spec procs h0 G rec n →
  h0 !! l = Some o → length h0 ≤ l' →
  ∀ keys P tm h tr,
    Inv h0 tm h → l' < length h → h !! l' = Some (Obj shp shk P) →
    good_loop procs h0 G n o l' shp shk P keys tm h
      (_handleCollectionClone_loop rec (VRef l) (VRef l') keys tm
         (State h procs tr)).
Proof.
  intros Hrec Hl Hl'N.
  induction keys as [|key keys IH]; intros P tm h tr HI Hl'h Hout.
  - cbn. split; [done|]. split; try done.
    + apply grows_refl.
    + exists P. split; [done|]. intros key.
      rewrite decide_False; [done|apply not_elem_of_nil].
    + intros key v Hk. by apply elem_of_nil in Hk.
  - assert (h !! l = Some o) as Hlh.
    { rewrite (inv_low HI); [done|]. by eapply lookup_lt_Some. }
    cbn [_handleCollectionClone_loop]. rewrite bind_run, (run_hasProp l o) by done.
    destruct (oprops o !! key) as [v|] eqn:Hv.
    + rewrite bool_decide_eq_true_2 by done.
      rewrite bind_run, (run_Get_own l o _ _ _ _ v) by done.
      assert (closed_value h0 v) as Hcv by (by eapply Hclosed).
      pose proof (Hrec v tm h tr HI Hcv) as Hgood.
      rewrite bind_run.
      destruct (rec v tm (State h procs tr))
        as [[c tm1] [h1 procs1 tr1]|e st1|[|]] eqn:Erec; cbn in Hgood.
      * destruct Hgood as [-> HP]. cbn [st_heap] in HP.
        destruct HP as [HI1 Hg1 Hc Hm1 Hfr1 Hre1].
        assert (h1 !! l' = Some (Obj shp shk P)) as Hout1 by (by rewrite Hfr1).
        assert (key ≠ "__proto__") as Hkey.
        { intros ->. by rewrite (Hnoproto l o Hl) in Hv. }
        rewrite bind_run, (run_put l' _ _ _ _ _ _ Hout1 Hkey).
        cbn [oproto okind oprops].
        cbv beta iota.
        match goal with
        | |- context [State ?hh procs tr1] => set (h1' := hh)
        end.
        assert (length h1' = length h1) as Hlen1 by apply length_insert.
        assert (length h ≤ length h1) as Hhh1 by apply Hg1.
        assert (length (inputs tm) ≤ length (inputs tm1)) as Hgrow.
        { destruct (grows_in Hg1) as [e ->]. rewrite length_app. lia. }
        assert (Inv h0 tm1 h1') as HI1' by (by apply Inv_put).
        assert (h1' !! l' = Some (Obj shp shk (<[key := c]> P))) as Hout1'.
        { apply list_lookup_insert_eq. lia. }
        specialize (IH (<[key := c]> P) tm1 h1' tr1 HI1' ltac:(lia) Hout1').
        destruct (_handleCollectionClone_loop rec (VRef l) (VRef l') keys tm1
                    (State h1' procs tr1))
          as [tm2 [h2 procs2 tr2]|e st2|[|]] eqn:Eloop; cbn in IH |- *.
        -- destruct IH as [-> [HI2 Hg2 Hfr2 (P2 & Hout2 & HP2) Hm2 Hre2]].
           split; [done|]. cbn [st_heap] in *. split.
           ++ done.
           ++ eapply (grows_trans tm h tm1 h1 tm2 h2); [done|done| |].
              ** destruct Hg2 as [? ? ? Hn]. split; try done; [lia|].
                 intros i x y Hi Hx Hy. destruct (Hn i x y Hi Hx Hy) as [? (l2 & ? & ?)].
                 split; [done|]. exists l2. split; [done|lia].
              ** intros l2 Hl2 Hl2'. rewrite Hfr2 by lia.
                 apply list_lookup_insert_ne. lia.
           ++ intros l2 Hl2 Hne. rewrite Hfr2 by lia.
              unfold h1'. rewrite list_lookup_insert_ne by done. by apply Hfr1.
           ++ exists P2. split; [done|]. intros key'. rewrite HP2.
              destruct (decide (key' ∈ keys)) as [Hin|Hnin].
              { rewrite decide_True by (rewrite ?elem_of_cons; auto).
                destruct (oprops o !! key') eqn:Hk'; [done|].
                rewrite lookup_insert_ne; [done|]. intros <-. congruence. }
              destruct (decide (key' = key)) as [->|Hne].
              ** rewrite decide_True by (rewrite ?elem_of_cons; auto). rewrite Hv, lookup_insert_eq.
                 f_equal. rewrite Hc. symmetry.
                 apply img_prefix; [apply Hg2|apply Hg2|apply HI1|done].
              ** rewrite decide_False by (by intros [?|?]%elem_of_cons).
                 by rewrite lookup_insert_ne.
           ++ intros key' v' [->|Hin]%elem_of_cons Hv'.
              ** simplify_eq. eapply mapped_prefix; [apply Hg2|done].
              ** eauto.
           ++ intros Hall Hold. apply Hre2.
              ** intros k v' Hk. apply Hall. apply elem_of_cons; auto.
              ** apply Hre1; [|done]. eapply Hall; [|done]. apply elem_of_cons; auto.
        -- intros [Hn Hall]. apply IH. split; [lia|]. intros; eapply Hall; [|done]. rewrite elem_of_cons; auto.
        -- lia.
        -- intros [Hn Hall]. apply IH. split; [lia|]. intros; eapply Hall; [|done]. rewrite elem_of_cons; auto.
      * intros [Hn Hall]. apply Hgood. split; [done|]. eapply Hall; [|done]. rewrite elem_of_cons; auto.
      * done.
      * intros [Hn Hall]. apply Hgood. split; [done|]. eapply Hall; [|done]. rewrite elem_of_cons; auto.
    + rewrite bool_decide_eq_false_2 by (by intros [? ?]).
      specialize (IH P tm h tr HI Hl'h Hout).
      destruct (_handleCollectionClone_loop rec (VRef l) (VRef l') keys tm
                  (State h procs tr))
        as [tm2 [h2 procs2 tr2]|e st2|[|]] eqn:Eloop; cbn in IH |- *.
      * destruct IH as [-> [HI2 Hg2 Hfr2 (P2 & Hout2 & HP2) Hm2 Hre2]].
        split; [done|]. cbn [st_heap] in *. split; try done.
        -- exists P2. split; [done|]. intros key'. rewrite HP2.
           destruct (decide (key' ∈ keys)) as [Hin|Hnin].
           { by rewrite decide_True by (rewrite ?elem_of_cons; auto). }
           destruct (decide (key' = key)) as [->|Hne].
           ++ rewrite decide_True by (rewrite ?elem_of_cons; auto). by rewrite Hv.
           ++ by rewrite decide_False by (by intros [?|?]%elem_of_cons).
        -- intros key' v' [->|Hin]%elem_of_cons Hv'; [congruence|eauto].
        -- intros Hall Hold. apply Hre2; [|done].
           intros k v' Hk. apply Hall. apply elem_of_cons; auto.
      * intros [Hn Hall]. apply IH. split; [lia|]. intros; eapply Hall; [|done]. rewrite elem_of_cons; auto.
      * done.
      * intros [Hn Hall]. apply IH. split; [lia|]. intros; eapply Hall; [|done]. rewrite elem_of_cons; auto.
Qed.

Lemma builtin_run rec input tm st :
  _handleObjectClone_builtin host rec input tm st =
    match shell_run host input st with
    | Ok (output, c) st1 =>
        let tm1 := TransferMap_set tm input output in
        match (if c : bool
               then _handleCollectionClone rec input output tm1
               else mret tm1) st1 with
        | Ok tm2 st2 => Ok (output, tm2) st2
        | Throw e st2 => Throw e st2
        | Abort w => Abort w
        end
    | Throw e st1 => Throw e st1
    | Abort w => Abort w
    end.
Proof.
  unfold _handleObjectClone_builtin, shell_run. munfold.
  destruct (call_method host input "valueOf" [] st) as [v s1| |]; [|done..].
  destruct (_toString input s1) as [t s2| |]; [|done..].
  destruct (clone_shell input v t s2) as [[out c] s3| |]; [|done..].
  done.
Qed.

Lemma Inv_alloc tm h l o sh :
  Inv h0 tm h → h0 !! l = Some o → is_callable o = false →
  VRef l ∉ inputs tm →
  Inv h0 (mkTransferMap (inputs tm ++ [VRef l]) (outputs tm ++ [VRef (length h)]))
      (h ++ [sh]).
Proof.
  intros [] Hl Hc Hnew. split; cbn.
  - intros l2 Hl2. rewrite lookup_app_l by lia. auto.
  - rewrite length_app. lia.
  - rewrite !length_app. cbn. lia.
  - intros x [Hx| ->%list_elem_of_singleton]%elem_of_app; [auto|].
    cbn. by rewrite Hl, Hc.
  - intros y [Hy| ->%list_elem_of_singleton]%elem_of_app; rewrite length_app; cbn.
    + destruct (inv_out0 y Hy) as (l2 & -> & ?). exists l2. split; [done|lia].
    + exists (length h). split; [done|lia].
  - apply NoDup_app. split; [done|]. split; [|apply NoDup_singleton].
    intros x Hx ->%list_elem_of_singleton. done.
  - apply NoDup_app. split; [done|]. split; [|apply NoDup_singleton].
    intros y Hy ->%list_elem_of_singleton.
    destruct (inv_out0 _ Hy) as (l2 & [= <-] & ?). lia.
  - intros l2 ? Hl2. rewrite length_app in Hl2. cbn in Hl2. apply elem_of_app.
    destruct (decide (l2 < length h)); [left; auto|].
    right. apply list_elem_of_singleton. f_equal. lia.
Qed.

Lemma inputs_bound tm h : Inv h0 tm h → length (inputs tm) ≤ length h0.
Proof.
  intros HI.
  set (f := λ v : value, match v with VRef l => l | _ => 0 end).
  assert (NoDup (f <$> inputs tm)) as Hnd.
  { apply NoDup_fmap_2_strong; [|apply HI].
    intros x y Hx Hy Hf.
    apply (inv_in HI), is_composite_inv in Hx as (lx & ? & -> & _).
    apply (inv_in HI), is_composite_inv in Hy as (ly & ? & -> & _).
    cbn in Hf. by subst. }
  assert (f <$> inputs tm ⊆+ seq 0 (length h0)) as Hsub.
  { apply NoDup_submseteq; [done|]. intros x (v & -> & Hv)%list_elem_of_fmap.
    apply (inv_in HI), is_composite_inv in Hv as (lx & ? & -> & Hl & _).
    cbn. apply elem_of_seq. apply lookup_lt_Some in Hl. lia. }
  apply submseteq_length in Hsub. by rewrite length_fmap, length_seq in Hsub.
Qed.

Lemma Post_same tm h input :
  Inv h0 tm h → mapped h0 tm input → Post h0 G tm h input (img h0 tm input) tm h.
Proof. intros HI Hm. split; try done. apply grows_refl. Qed.

Lemma handle_spec rec n l o tm h tr :
  clone_spec procs h0 G rec n →
  h0 !! l = Some o → is_callable o = false → Inv h0 tm h →
  good_clone procs h0 G (S n) (VRef l) tm h
    (_handleObjectClone host rec (VRef l) tm (State h procs tr)).
Proof.
  intros Hrec Hl Hc HI.
  assert (is_composite h0 (VRef l) = true) as Hcomp by (cbn; by rewrite Hl, Hc).
  assert (h !! l = Some o) as Hlh.
  { rewrite (inv_low HI); [done|]. by eapply lookup_lt_Some. }
  unfold _handleObjectClone.
  destruct (present (inputs tm) (VRef l)) eqn:Hp.
  - (* already recorded: the recorded output *)
    apply present_ref in Hp as Hin.
    apply list_elem_of_lookup in Hin as [i Hi].
    destruct (lookup_lt_is_Some_2 (outputs tm) i) as [y Hy].
    { rewrite <- (inv_len HI). by eapply lookup_lt_Some. }
    destruct (inv_out HI y) as (l' & -> & Hl'); [by eapply list_elem_of_lookup_2|].
    rewrite (TransferMap_get_ref tm l i), Hy by (done || apply HI). cbn.
    split; [done|].
    replace (VRef l') with (img h0 tm (VRef l)).
    + apply Post_same; [done|]. by intros _.
    + unfold img. rewrite Hcomp.
      by rewrite (TransferMap_get_ref tm l i), Hy by (done || apply HI).
  - (* a new original *)
    rewrite (TransferMap_get_miss _ _ Hp).
    change (negb (strict_equals VNull VNull)) with false. cbv iota.
    rewrite bind_run.
    destruct (Hdecl (VRef l) h tr (Inv_prefix _ _ _ HI)) as [tr' ->].
    rewrite bind_run.
    change (typeof_ VUndefined (State h procs tr'))
      with (Ok (A:=string) "undefined" (State h procs tr')).
    cbv iota beta. change (negb (String.eqb "undefined" "undefined")) with false. cbv iota.
    rewrite builtin_run.
    apply present_ref_false in Hp as Hnin.
    pose proof (run_valueOf host h0 h procs tr' l o Hl (Hstd l o Hl Hc)
                  (inv_low HI) (inv_size HI)) as Hval.
    destruct (shell_of o) as [[sh c]|] eqn:Hsh.
    2:{ destruct (rejection o) as [e|] eqn:Hrej.
        - rewrite (shell_run_rejection host l o h procs tr' e Hlh Hval Hrej).
          cbn. intros [_ HGl]. by exists l, o.
        - destruct (shell_run_unsupported host l o h procs tr' Hlh Hval Hsh)
            as [[e ->]| ->];
          cbn; intros [_ HGl];
          destruct (HG l o HGl Hl Hc) as [[[? ?]|[? ?]] _]; congruence. }
    rewrite (shell_run_supported host l o h procs tr' sh c Hlh Hval Hsh). cbv zeta.
    rewrite (TransferMap_set_new _ _ _ Hp).
    set (tm1 := mkTransferMap _ _).
    assert (Inv h0 tm1 (h ++ [sh])) as HI1 by (by eapply Inv_alloc).
    assert (inputs tm1 !! length (inputs tm) = Some (VRef l)) as Hi1.
    { cbn. by rewrite lookup_app_r, Nat.sub_diag. }
    assert (outputs tm1 !! length (inputs tm) = Some (VRef (length h))) as Ho1.
    { cbn. by rewrite (inv_len HI), lookup_app_r, Nat.sub_diag. }
    assert (TransferMap_get tm1 (VRef l) = VRef (length h)) as Hget1.
    { by rewrite (TransferMap_get_ref tm1 l _ (inv_nodup_in HI1) Hi1), Ho1. }
    assert (present (inputs tm1) (VRef l) = true) as Hp1.
    { apply present_ref. by eapply list_elem_of_lookup_2. }
    pose proof (shell_of_props _ _ _ Hsh) as Hshp.
    assert ((h ++ [sh]) !! length h = Some (Obj (oproto sh) (okind sh) ∅)) as Hnew.
    { rewrite lookup_app_r, Nat.sub_diag by done. cbn. destruct sh. cbn in *. by subst. }
    destruct c.
    + (* a collection: the members are cloned one by one *)
      unfold _handleCollectionClone. rewrite bind_run.
      rewrite (run_for_in l o) by (by rewrite lookup_app_l by (by eapply lookup_lt_Some)).
      set (keys := remove_dups _).
      assert (∀ k, is_Some (oprops o !! k) → k ∈ keys) as Hkeys.
      { intros k Hk. apply elem_of_remove_dups, elem_of_app. left.
        by apply own_keys_elem. }
      pose proof (loop_spec rec n l o (length h) (oproto sh) (okind sh) Hrec Hl
                    (inv_size HI) keys ∅ tm1 (h ++ [sh]) tr' HI1) as Hloop.
      rewrite length_app in Hloop. cbn in Hloop.
      specialize (Hloop ltac:(lia) Hnew).
      destruct (_handleCollectionClone_loop rec (VRef l) (VRef (length h)) keys tm1
                  (State (h ++ [sh]) procs tr'))
        as [tm2 [h2 procs2 tr2]|e st2|[|]] eqn:Eloop; cbn in Hloop |- *.
      * destruct Hloop as [-> [HI2 Hg2 Hfr2 (P2 & Hout2 & HP2) Hm2 Hre2]].
        cbn [st_heap] in *. split; [done|].
        assert (inputs tm `prefix_of` inputs tm2) as Hpre_i.
        { etrans; [|apply Hg2]. by eexists. }
        assert (outputs tm `prefix_of` outputs tm2) as Hpre_o.
        { etrans; [|apply Hg2]. by eexists. }
        assert (TransferMap_get tm2 (VRef l) = VRef (length h)) as Hget2.
        { rewrite <- Hget1.
          apply TransferMap_get_prefix; [apply Hg2|apply Hg2|apply HI1|done]. }
        assert (P2 = img h0 tm2 <$> oprops o) as ->.
        { apply map_eq. intros k. rewrite HP2, lookup_fmap.
          destruct (decide (k ∈ keys)) as [Hk|Hk].
          - destruct (oprops o !! k); [done|]. by rewrite lookup_empty.
          - destruct (oprops o !! k) eqn:E; [|by rewrite lookup_empty].
            destruct Hk. apply Hkeys. by eexists. }
        split.
        -- done.
        -- split; [done|done| |].
           { etrans; [|apply Hg2]. rewrite length_app. lia. }
           intros i x y Hi Hx Hy.
           destruct (decide (i = length (inputs tm))) as [->|Hne].
           ++ destruct (grows_in Hg2) as [ei Hei].
              destruct (grows_out Hg2) as [eo Heo].
              assert (x = VRef l) as ->.
              { rewrite Hei, lookup_app_l in Hx by (by eapply lookup_lt_Some). congruence. }
              assert (y = VRef (length h)) as ->.
              { rewrite Heo, lookup_app_l in Hy by (by eapply lookup_lt_Some). congruence. }
              split; [|eauto].
              exists l, (length h), o, sh, true. repeat split; try done.
              intros _ k v Hk. eapply Hm2; [|done]. apply Hkeys. by eexists.
           ++ destruct (grows_new Hg2 i x y) as [Hcp (l2 & -> & Hl2)]; try done.
              { cbn. rewrite length_app. cbn. lia. }
              split; [done|]. exists l2. split; [done|].
              rewrite length_app in Hl2. lia.
        -- unfold img. by rewrite Hcomp.
        -- intros _. eapply present_prefix; [apply Hg2|done].
        -- intros l2 Hl2. rewrite Hfr2.
           ++ by apply lookup_app_l.
           ++ rewrite length_app. lia.
           ++ lia.
        -- intros HGl Hold. apply Hre2.
           ++ intros k v _ Hk. by eapply (HG l o).
           ++ intros x [Hx| ->%list_elem_of_singleton]%elem_of_app; auto.
      * intros [Hn HGl]. apply Hloop. split.
        -- cbn. rewrite length_app. cbn. lia.
        -- intros k v _ Hk. by eapply (HG l o).
      * cbn in Hloop. rewrite length_app in Hloop. cbn in Hloop. lia.
      * intros [Hn HGl]. apply Hloop. split.
        -- cbn. rewrite length_app. cbn. lia.
        -- intros k v _ Hk. by eapply (HG l o).
    + (* a value-like object: the shell is the clone *)
      cbn. split; [done|]. split.
      * done.
      * split; [by eexists|by eexists|rewrite length_app; lia|].
        intros i x y Hi Hx Hy.
        assert (i = length (inputs tm)) as ->.
        { apply lookup_lt_Some in Hx. cbn in Hx. rewrite length_app in Hx. cbn in Hx. lia. }
        simplify_eq. split; [|eauto].
        exists l, (length h), o, sh, false. repeat split; try done.
      * unfold img. by rewrite Hcomp.
      * by intros _.
      * intros l2 Hl2. by apply lookup_app_l.
      * intros HGl Hold x [Hx| ->%list_elem_of_singleton]%elem_of_app; auto.
Qed.

Theorem iSClone_spec fuel : clone_spec procs h0 G (_iSClone host fuel) fuel.
Proof.
  induction fuel as [|fuel IH]; intros input tm h tr HI Hcv.
  - cbn. pose proof (inputs_bound _ _ HI). lia.
  - cbn [_iSClone].
    destruct input as [| | | | |l] eqn:Hin;
      try (cbn; split; [done|]; by apply (Post_same tm h)).
    cbn in Hcv. destruct (lookup_lt_is_Some_2 h0 l Hcv) as [o Ho].
    assert (h !! l = Some o) as Hlh by (by rewrite (inv_low HI)).
    change (strict_equals (VRef l) VNull) with false. cbv iota.
    rewrite bind_run, (run_typeof_ref l o) by done.
    destruct (is_callable o) eqn:Hc.
    + cbn. split; [done|].
      replace (VRef l) with (img h0 tm (VRef l)) at 2.
      * apply Post_same; [done|]. intros Hx. unfold is_composite in Hx.
        by rewrite Ho, Hc in Hx.
      * unfold img, is_composite. by rewrite Ho, Hc.
    + change (String.eqb "object" "object") with true. cbv iota.
      by eapply handle_spec.
Qed.
End EngineInvariant.

(** ** Top-level clones *)

Lemma Inv_start h : Inv h TransferMap_new h.
Proof.
  split; cbn; try done.
  - intros x Hx. by apply elem_of_nil in Hx.
  - intros y Hy. by apply elem_of_nil in Hy.
  - apply NoDup_nil_2.
  - apply NoDup_nil_2.
  - lia.
Qed.

Lemma CY_clone_run host fuel input st :
  CY_clone host fuel input st =
    match _iSClone host fuel input TransferMap_new st with
    | Ok (output, _) st' => Ok output st'
    | Throw e st' => Throw e st'
    | Abort w => Abort w
    end.
Proof.
  unfold CY_clone. rewrite bind_run.
  by destruct (_iSClone host fuel input TransferMap_new st) as [[? ?] ?| |].
Qed.

Section TopLevel.
Context (host : host_env) (procs : list value) (h : heap).
Hypothesis Hdecl : resolver_declines host procs h.
Hypothesis Hclosed : heap_closed h.
Hypothesis Hstd : standard_valueOf h.
Hypothesis Hnoproto : no_proto_member h.
Context (G : loc → Prop).
Hypothesis HG : ∀ l o, G l → h !! l = Some o → is_callable o = false →
  (is_Some (shell_of o) ∨ is_Some (rejection o))
  ∧ ∀ k v, oprops o !! k = Some v → value_in G v.

Lemma clone_top tr fuel input :
  closed_value h input →
  match CY_clone host fuel input (State h procs tr) with
  | Ok out st' =>
      ∃ tm', procedures st' = procs
             ∧ Post h G TransferMap_new h input out tm' (st_heap st')
  | Throw e _ => length h < fuel ∧ value_in G input → rejected h G e
  | Abort OutOfFuel => ¬ (length h < fuel)
  | Abort Stuck => ¬ (length h < fuel ∧ value_in G input)
  end.
Proof.
  intros Hcv. rewrite CY_clone_run.
  pose proof (iSClone_spec host procs h Hdecl Hclosed Hstd Hnoproto G HG fuel
                input TransferMap_new h tr (Inv_start h) Hcv) as Hgood.
  destruct (_iSClone host fuel input TransferMap_new (State h procs tr))
    as [[out tm'] st'|e st'|[|]]; cbn in Hgood |- *.
  - destruct Hgood. eauto.
  - by rewrite Nat.add_0_r in Hgood.
  - by rewrite Nat.add_0_r in Hgood.
  - by rewrite Nat.add_0_r in Hgood.
Qed.

(** The entry of a composite the clone has recorded. *)
Lemma entry_of tm' h' v :
  Inv h tm' h' → grows h TransferMap_new h tm' h' →
  is_composite h v = true → mapped h tm' v →
  ∃ l', img h tm' v = VRef l' ∧ length h ≤ l' ∧ copied h tm' h' v (VRef l').
Proof.
  intros HI Hg Hc Hm.
  destruct (is_composite_inv _ _ Hc) as (l & o & -> & Hl & Hnc).
  pose proof (Hm Hc) as Hp. apply present_ref in Hp.
  apply list_elem_of_lookup in Hp as [i Hi].
  destruct (lookup_lt_is_Some_2 (outputs tm') i) as [y Hy].
  { rewrite <- (inv_len HI). by eapply lookup_lt_Some. }
  destruct (grows_new Hg i _ _ ltac:(cbn; lia) Hi Hy) as [Hcp (l' & -> & Hl')].
  exists l'. split; [|done].
  unfold img. rewrite Hc.
  by rewrite (TransferMap_get_ref tm' l i (inv_nodup_in HI) Hi), Hy.
Qed.
End TopLevel.

Section Records.
Context (host : host_env) (procs : list value) (h : heap).
Hypothesis Hdecl : resolver_declines host procs h.
Hypothesis Hclosed : heap_closed h.
Hypothesis Hstd : standard_valueOf h.
Hypothesis Hnoproto : no_proto_member h.

Lemma no_support_needed :
  ∀ l o, (λ _ : loc, False) l → h !! l = Some o → is_callable o = false →
    (is_Some (shell_of o) ∨ is_Some (rejection o))
    ∧ ∀ k v, oprops o !! k = Some v → value_in (λ _, False) v.
Proof. by intros l o []. Qed.

Lemma classify_all :
  classified_heap h →
  ∀ l o, (λ _ : loc, True) l → h !! l = Some o → is_callable o = false →
    (is_Some (shell_of o) ∨ is_Some (rejection o))
    ∧ ∀ k v, oprops o !! k = Some v → value_in (λ _, True) v.
Proof.
  intros Hs l o _ Hl Hc. split; [by eapply Hs|]. intros k v _. by destruct v.
Qed.

Lemma supported_classified : supported_heap h → classified_heap h.
Proof. intros Hs l o Hl Hc. left. by eapply Hs. Qed.

(** Enough fuel, and every object supported or rejected: the clone returns,
    or it throws the rejection of an object of the heap. *)
Lemma clone_outcome tr fuel input :
  closed_value h input → length h < fuel → classified_heap h →
  (∃ c st', CY_clone host fuel input (State h procs tr) = Ok c st')
  ∨ (∃ e st', CY_clone host fuel input (State h procs tr) = Throw e st'
              ∧ rejected h (λ _, True) e).
Proof.
  intros Hcv Hfuel Hs.
  pose proof (clone_top host procs h Hdecl Hclosed Hstd Hnoproto _
                (classify_all Hs) tr fuel input Hcv) as H.
  destruct (CY_clone host fuel input (State h procs tr)) as [c st'|e st'|[|]].
  - left. eauto.
  - right. exists e, st'. split; [done|]. apply H. split; [done|by destruct input].
  - done.
  - destruct H. split; [done|by destruct input].
Qed.

(** Enough fuel: the clone of a value of a closed heap never runs dry, and
    it returns when every object is supported. *)
Lemma clone_terminates tr fuel input :
  closed_value h input → length h < fuel →
  CY_clone host fuel input (State h procs tr) ≠ Abort OutOfFuel
  ∧ (supported_heap h →
     ∃ c st', CY_clone host fuel input (State h procs tr) = Ok c st').
Proof.
  intros Hcv Hfuel. split.
  - pose proof (clone_top host procs h Hdecl Hclosed Hstd Hnoproto _
                  no_support_needed tr fuel input Hcv) as H.
    intros E. rewrite E in H. done.
  - intros Hs.
    destruct (clone_outcome tr fuel input Hcv Hfuel (supported_classified Hs))
      as [?|(e & st' & _ & l & o & _ & Hl & Hc & Hrej)]; [done|].
    rewrite (shell_of_rejection o) in Hrej; [done|by eapply Hs].
Qed.

(** The clone of a composite: a fresh object, the completed copy of the
    original. *)
Lemma clone_composite tr fuel l o c st' :
  h !! l = Some o → is_callable o = false →
  CY_clone host fuel (VRef l) (State h procs tr) = Ok c st' →
  ∃ tm' lc,
    c = VRef lc ∧ length h ≤ lc
    ∧ Inv h tm' (st_heap st')
    ∧ grows h TransferMap_new h tm' (st_heap st')
    ∧ img h tm' (VRef l) = VRef lc
    ∧ copied h tm' (st_heap st') (VRef l) (VRef lc).
Proof.
  intros Hl Hc E.
  assert (closed_value h (VRef l)) as Hcv by (by eapply lookup_lt_Some).
  pose proof (clone_top host procs h Hdecl Hclosed Hstd Hnoproto _
                no_support_needed tr fuel (VRef l) Hcv) as H.
  rewrite E in H. destruct H as (tm' & _ & [HI Hg Hout Hm _ _]).
  assert (is_composite h (VRef l) = true) as Hcomp by (cbn; by rewrite Hl, Hc).
  destruct (entry_of h tm' (st_heap st') (VRef l) HI Hg Hcomp Hm)
    as (lc & Himg & Hlc & Hcp).
  exists tm', lc. split_and!; try done. congruence.
Qed.

End Records.

(** ** The heap after a clone *)


Lemma elem_of_pairing tm a b :
  (a, b) ∈ pairing tm ↔
  ∃ i, inputs tm !! i = Some (VRef a) ∧ outputs tm !! i = Some (VRef b).
Proof.
  unfold pairing. rewrite list_elem_of_omap. split.
  - intros ([x y] & Hin & E). destruct x; try done. destruct y; try done.
    simplify_eq. apply list_elem_of_lookup in Hin as [i Hi].
    apply lookup_zip_Some in Hi. eauto.
  - intros (i & Hi & Ho). exists (VRef a, VRef b). split; [|done].
    apply list_elem_of_lookup. exists i. by apply lookup_zip_Some.
Qed.

Lemma entry_index h0 tm h v :
  Inv h0 tm h → is_composite h0 v = true → mapped h0 tm v →
  ∃ i l l', v = VRef l ∧ inputs tm !! i = Some (VRef l)
            ∧ outputs tm !! i = Some (VRef l') ∧ img h0 tm v = VRef l'.
Proof.
  intros HI Hc Hm.
  destruct (is_composite_inv _ _ Hc) as (l & o & -> & Hl & Hnc).
  pose proof (Hm Hc) as Hp. apply present_ref in Hp.
  apply list_elem_of_lookup in Hp as [i Hi].
  destruct (lookup_lt_is_Some_2 (outputs tm) i) as [y Hy].
  { rewrite <- (inv_len HI). by eapply lookup_lt_Some. }
  destruct (inv_out HI y) as (l' & -> & _); [by eapply list_elem_of_lookup_2|].
  exists i, l, l'. split_and!; try done.
  unfold img. rewrite Hc.
  by rewrite (TransferMap_get_ref tm l i (inv_nodup_in HI) Hi), Hy.
Qed.

(** The heap a completed top-level clone leaves. *)
Section AfterClone.
Context (h : heap) (tm1 : TransferMap) (h1 : heap).
Hypothesis Hclosed : heap_closed h.
Hypothesis Hstd : standard_valueOf h.
Hypothesis HI1 : Inv h tm1 h1.
Hypothesis Hg1 : grows h TransferMap_new h tm1 h1.







End AfterClone.

(** ** Checks and examples *)

Lemma closed_valueb_sound h v : closed_valueb h v = true → closed_value h v.
Proof. destruct v; try done. cbn. by intros ?%bool_decide_eq_true. Qed.

Lemma heap_closedb_sound h : heap_closedb h = true → heap_closed h.
Proof.
  unfold heap_closedb. rewrite forallb_forall. intros H l o k v Hl Hk.
  apply list_elem_of_lookup_2, list_elem_of_In in Hl.
  specialize (H o Hl). rewrite forallb_forall in H.
  apply closed_valueb_sound, (H (k, v)).
  by apply list_elem_of_In, elem_of_map_to_list.
Qed.

Lemma supported_heapb_sound h : supported_heapb h = true → supported_heap h.
Proof.
  unfold supported_heapb. rewrite forallb_forall. intros H l o Hl Hc.
  apply list_elem_of_lookup_2, list_elem_of_In in Hl.
  specialize (H o Hl). rewrite Hc in H. by apply bool_decide_eq_true in H.
Qed.

Lemma standard_valueOfb_sound h :
  standard_valueOfb h = true → standard_valueOf h.
Proof.
  unfold standard_valueOfb. rewrite forallb_forall. intros H l o Hl Hc.
  assert (is_callable o || valueOf_standard_atb h l o = true) as Hb.
  { apply H, list_elem_of_In, list_elem_of_lookup. exists l.
    by rewrite list_lookup_imap, Hl. }
  rewrite Hc in Hb. cbn in Hb. unfold valueOf_standard_atb in Hb.
  destruct (find_property (S (length h)) h l "valueOf") as [[v|cls|]|] eqn:Hf;
    try done.
  exists cls. split; [done|]. by apply bool_decide_eq_true in Hb.
Qed.

Lemma resolver_declines_nil host h0 : resolver_declines host [] h0.
Proof. intros obj h tr _. by exists tr. Qed.

Lemma resolver_declines_all host procs h0 :
  (∀ obj h q, h0 `prefix_of` h → q ∈ procs → declines host procs obj h q) →
  resolver_declines host procs h0.
Proof.
  intros Hd obj h tr Hh. eexists. apply attempt_none_match.
  intros q Hq. by apply Hd.
Qed.


Lemma resolver_declines_never host procs h0 :
  Forall (never_matches host h0) procs → resolver_declines host procs h0.
Proof.
  intros Hall. apply resolver_declines_all. intros obj h q Hh Hq.
  rewrite Forall_forall in Hall.
  destruct (Hall q Hq) as (l & o & lf & f & fid & -> & Hl & Hd & Hf & Hk & Hrun).
  destruct (Hrun (VRef l) [obj] h) as (d & Hd' & Ht).
  exists d. split; [|done]. intros tr. unfold call_method.
  rewrite bind_run. cbn [get_heap st_heap find_property].
  rewrite (prefix_lookup_Some _ _ _ _ Hl Hh). rewrite Hd.
  rewrite bind_run, (run_lookup_obj lf f) by (by eapply prefix_lookup_Some).
  rewrite Hk. unfold emit, get_heap, set_heap. munfold. cbn. by rewrite Hd'.
Qed.


Lemma no_proto_memberb_sound h :
  no_proto_memberb h = true → no_proto_member h.
Proof.
  unfold no_proto_memberb. rewrite forallb_forall. intros H l o Hl.
  apply list_elem_of_lookup_2, list_elem_of_In in Hl.
  specialize (H o Hl). by apply bool_decide_eq_true in H.
Qed.

(** ** Clones that do not recurse *)

(** From [CY.clone] down to the built-in handling, for a composite the
    resolver declines. *)
Lemma clone_enters_builtin host procs h tr l o fuel :
  resolver_declines host procs h → h !! l = Some o → is_callable o = false →
  ∃ tr',
    CY_clone host (S fuel) (VRef l) (State h procs tr)
    = match _handleObjectClone_builtin host (_iSClone host fuel) (VRef l)
              TransferMap_new (State h procs tr') with
      | Ok (output, _) st' => Ok output st'
      | Throw e st' => Throw e st'
      | Abort w => Abort w
      end.
Proof.
  intros Hdecl Hl Hc. rewrite CY_clone_run. cbn [_iSClone].
  change (strict_equals (VRef l) VNull) with false. cbv iota.
  rewrite bind_run, (run_typeof_ref l o), Hc by done.
  change (String.eqb "object" "object") with true. cbv iota.
  unfold _handleObjectClone.
  change (TransferMap_get TransferMap_new (VRef l)) with VNull.
  change (negb (strict_equals VNull VNull)) with false. cbv iota.
  rewrite bind_run. destruct (Hdecl (VRef l) h tr) as [tr' ->]; [done|].
  rewrite bind_run.
  change (typeof_ VUndefined (State h procs tr'))
    with (Ok (A:=string) "undefined" (State h procs tr')).
  cbv iota beta. change (negb (String.eqb "undefined" "undefined")) with false.
  cbv iota. by exists tr'.
Qed.

(** The clone of an object that is not a collection: its shell. *)
Lemma clone_leaf host procs h tr l o sh fuel :
  resolver_declines host procs h → h !! l = Some o →
  valueOf_standard_at h l o → shell_of o = Some (sh, false) →
  ∃ tr', CY_clone host (S fuel) (VRef l) (State h procs tr)
         = Ok (VRef (length h)) (State (h ++ [sh]) procs tr').
Proof.
  intros Hdecl Hl Hstd Hsh.
  assert (is_callable o = false) as Hc.
  { unfold is_callable. unfold shell_of in Hsh. by destruct (okind o). }
  destruct (clone_enters_builtin host procs h tr l o fuel Hdecl Hl Hc) as [tr' ->].
  exists tr'. rewrite builtin_run.
  rewrite (shell_run_supported host l o h procs tr' sh false Hl); [done| |done].
  by apply (run_valueOf host h).
Qed.

(** The clone of an object the [switch] rejects. *)
Lemma clone_rejected host procs h tr l o e fuel :
  resolver_declines host procs h → h !! l = Some o → is_callable o = false →
  valueOf_standard_at h l o → rejection o = Some e →
  ∃ tr', CY_clone host (S fuel) (VRef l) (State h procs tr)
         = Throw e (State h procs tr').
Proof.
  intros Hdecl Hl Hc Hstd Hrej.
  destruct (clone_enters_builtin host procs h tr l o fuel Hdecl Hl Hc) as [tr' ->].
  exists tr'. rewrite builtin_run.
  rewrite (shell_run_rejection host l o h procs tr' e Hl); [done| |done].
  by apply (run_valueOf host h).
Qed.

(** ** Registration *)

Lemma typeof_keeps_state v st t st' : typeof_ v st = Ok t st' → st' = st.
Proof.
  destruct v; cbn; munfold; try congruence.
  unfold lookup_obj. destruct (st_heap st !! l); congruence.
Qed.

(** Claim C10.  Registration requires the argument itself to be of object
    type: [defineCloneProcedure] answers [false], and leaves the registry
    alone, for every argument whose [typeof] is not ['object']; in
    particular for a callable, whatever [detect] and [copy] properties it
    carries. *)
Theorem C10_registration_requires_object_type :
  (∀ (procObj : value) (st : state) (t : string),
     typeof_ procObj st = Ok t st → t ≠ "object" →
     CY_defineCloneProcedure procObj st = Ok false st)
  ∧ (∀ (st : state) (l : loc) (o : obj),
       st_heap st !! l = Some o → is_callable o = true →
       typeof_ (VRef l) st = Ok "function" st
       ∧ CY_defineCloneProcedure (VRef l) st = Ok false st).
Proof.
  assert (∀ (procObj : value) (st : state) (t : string),
     typeof_ procObj st = Ok t st → t ≠ "object" →
     CY_defineCloneProcedure procObj st = Ok false st) as H.
  { intros procObj st t Ht Hne. unfold CY_defineCloneProcedure.
    rewrite bind_run, Ht. by destruct (String.eqb_spec t "object"). }
  split; [done|]. intros [h procs tr] l o Hl Hc. cbn in Hl.
  assert (typeof_ (VRef l) (State h procs tr) = Ok "function" (State h procs tr)) as Ht.
  { by rewrite (run_typeof_ref l o), Hc. }
  split; [done|]. by eapply H.
Qed.

(** Claim C5, at the failing input.  [defineCloneProcedure(null)] does not
    answer [false]: [typeof null] is ['object'], so the guard goes on to
    read [null.detect], which throws a TypeError. *)
Theorem C5_null_registration_throws (st : state) :
  CY_defineCloneProcedure VNull st
  = Throw (TypeError "Cannot read property 'detect' of null") st.
Proof. reflexivity. Qed.

(** What registration does with an object: it is accepted, and appended
    to the registry, exactly when both [detect] and [copy] are callable. *)
Lemma registration_of_object (h : heap) (procs : list value)
    (tr : list event) (l : loc) (o : obj) (d c : value) (td tc : string) :
  h !! l = Some o → is_callable o = false →
  Get (VRef l) "detect" (State h procs tr) = Ok d (State h procs tr) →
  Get (VRef l) "copy" (State h procs tr) = Ok c (State h procs tr) →
  typeof_ d (State h procs tr) = Ok td (State h procs tr) →
  typeof_ c (State h procs tr) = Ok tc (State h procs tr) →
  CY_defineCloneProcedure (VRef l) (State h procs tr)
  = if String.eqb td "function" && String.eqb tc "function"
    then Ok true (State h (procs ++ [VRef l]) tr)
    else Ok false (State h procs tr).
Proof.
  intros Hl Hc Hd Hcp Htd Htc. unfold CY_defineCloneProcedure.
  rewrite bind_run, (run_typeof_ref l o), Hc by done.
  change (String.eqb "object" "object") with true. cbv iota.
  rewrite bind_run, Hd, bind_run, Htd.
  destruct (String.eqb td "function"); [|done].
  rewrite bind_run, Hcp, bind_run, Htc.
  by destruct (String.eqb tc "function").
Qed.

(** ** Transfer maps *)

(** Claim C8.  The transfer map records each original at most once: a
    [set] whose input is already present is a no-op; in a map built by
    [set] calls, [get] answers the output of the first call made for that
    input, the two sequences have the same length and no two inputs are
    identical. *)
Theorem C8_transfer_map_first_write_wins :
  (∀ (tm : TransferMap) (input output : value),
     indexOf (inputs tm) input ≠ (-1)%Z →
     TransferMap_set tm input output = tm)
  ∧ (∀ ops : list (value * value),
       let tm := register_all ops in
       length (inputs tm) = length (outputs tm)
       ∧ (∀ input, TransferMap_get tm input = first_registered ops input)
       ∧ (∀ i j x y, i < j → inputs tm !! i = Some x →
            inputs tm !! j = Some y → strict_equals x y = false)).
Proof.
  split; [apply TransferMap_set_no_op|].
  intros ops tm. destruct (register_all_inv ops) as (Hlen & _ & Hget & Hnd).
  done.
Qed.

(** ** Regular expressions *)

(** Claim C7, amended.  [_handleRegExpClone] builds [flags] from the
    three tests [global], [ignoreCase], [multiline], in the order g, i, m
    (the string is given case by case), and calls
    [new RegExp(re.source, flags)].  When the source is a pattern without
    the [u] flag, the result is a new regular expression with the same
    source and these three flags; [sticky] and [unicode] are off and
    [lastIndex] is 0.  When the source is a pattern with the [u] flag only,
    the constructor throws a SyntaxError: the dropped flag is not dropped
    silently.  Either way this is the outcome of [clone] for a regular
    expression with the standard [valueOf], when the detectors of the
    registered procedures decline. *)
Theorem C7_regexp_rebuilt_from_source_and_gim (host : host_env)
    (procs : list value) (h : heap) (tr : list event) (l : loc) (o : obj)
    (r : regexp) (fuel : nat) :
  h !! l = Some o → okind o = KRegExp r →
  let flags := match global r, ignoreCase r, multiline r with
               | true, true, true => "gim"
               | true, true, false => "gi"
               | true, false, true => "gm"
               | true, false, false => "g"
               | false, true, true => "im"
               | false, true, false => "i"
               | false, false, true => "m"
               | false, false, false => ""
               end in
  let clone := Obj (PStd "RegExp")
                 (KRegExp (RegExp (source r) (global r) (ignoreCase r)
                             (multiline r) false false 0)) ∅ in
  let error := SyntaxError ("Invalid regular expression: /"
                            +:+ text (source r) +:+ "/") in
  _handleRegExpClone_flags r = flags
  ∧ _handleRegExpClone (VRef l) (State h procs tr)
    = new_RegExp (source r) flags (State h procs tr)
  ∧ new_RegExp (source r) flags (State h procs tr)
    = (if unicode_only (source r)
       then Throw error (State h procs tr)
       else Ok (VRef (length h)) (State (h ++ [clone]) procs tr))
  ∧ (resolver_declines host procs h → valueOf_standard_at h l o →
     ∃ tr', CY_clone host (S fuel) (VRef l) (State h procs tr)
            = if unicode_only (source r)
              then Throw error (State h procs tr')
              else Ok (VRef (length h)) (State (h ++ [clone]) procs tr')).
Proof.
  intros Hl Hk flags clone error.
  assert (_handleRegExpClone_flags r = flags) as Hflags.
  { unfold _handleRegExpClone_flags, flags.
    by destruct (global r), (ignoreCase r), (multiline r). }
  assert (is_callable o = false) as Hc by (unfold is_callable; by rewrite Hk).
  split_and!.
  - done.
  - unfold _handleRegExpClone, regexp_of. rewrite bind_run, bind_run.
    rewrite (run_lookup_obj l o) by done. rewrite Hk. cbn. by rewrite Hflags.
  - unfold flags, clone, error. destruct r as [[txt uo] g i m y u li]. cbn.
    by destruct uo, g, i, m.
  - intros Hdecl Hstd. destruct (unicode_only (source r)) eqn:Hu.
    + apply (clone_rejected host procs h tr l o); try done.
      unfold rejection. by rewrite Hk, Hu.
    + apply (clone_leaf host procs h tr l o); try done.
      unfold shell_of. by rewrite Hk, Hu.
Qed.

(** ** The custom clone resolver *)

Section Custom.
Context (host : host_env).

(** Claim C6.  The registry is scanned from the most recent procedure to
    the oldest, and the first procedure whose detector answers true wins:
    when the procedures registered after [p] decline and [p] detects the
    object, the result is that of [p.copy(obj)], whatever the procedures
    registered before [p] would answer: they are not consulted (the trace
    holds the declined detectors, then [p.detect], then [p.copy], and
    nothing else). *)
Theorem C6_most_recent_matching_procedure_wins (older newer : list value)
    (p obj d : value) (h h1 : heap) (tr : list event) :
  let procs := older ++ p :: newer in
  let scanned := declined_events (S (length older)) newer obj
                 ++ [ConsoleLog "procIdx:" (length older);
                     Invoke p "detect" [obj]] in
  (∀ q, q ∈ newer → declines host procs obj h q) →
  detector_answers host procs obj h p d h1 → truthy d = true →
  _attemptCustomClone host obj (State h procs tr)
  = call_method host p "copy" [obj] (State h1 procs (tr ++ scanned))
  ∧ ∀ c h2, copier_answers host procs obj h1 p c h2 →
      _attemptCustomClone host obj (State h procs tr)
      = Ok c (State h2 procs (tr ++ scanned ++ [Invoke p "copy" [obj]])).
Proof.
  intros procs scanned Hnewer Hp Hd.
  pose proof (attempt_first_match host older p newer obj h tr d h1 Hnewer Hp Hd) as E.
  split; [exact E|]. intros c h2 Hc. subst procs scanned.
  rewrite E, Hc. by rewrite <- !app_assoc.
Qed.
End Custom.

Lemma collection_shell o :
  is_collection o →
  is_callable o = false
  ∧ ∃ p, shell_of o = Some (Obj p (okind o) ∅, true).
Proof.
  unfold is_callable, shell_of. intros [E|[len E]]; rewrite E; eauto.
Qed.

Section Unsupported.
Context (host : host_env) (procs : list value) (h : heap).
Hypothesis Hdecl : resolver_declines host procs h.
Hypothesis Hclosed : heap_closed h.
Hypothesis Hstd : standard_valueOf h.
Hypothesis Hnoproto : no_proto_member h.


End Unsupported.


(** Claim C4, amended.  The copy result of the first matching procedure is
    the clone, and short-circuits the built-in handling, when it is not
    [undefined] ([null] included).  An [undefined] copy result is the
    no-match outcome itself: the built-in handling goes on, as it does when
    no detector matches. *)
Theorem C4_custom_copy_result_unless_undefined (host : host_env)
    (rec : value → TransferMap → M (value * TransferMap))
    (tMap : TransferMap) (tr : list event) :
  (∀ older newer p d c l h h1 h2,
     let procs := older ++ p :: newer in
     let obj := VRef l in
     let st' := State h2 procs
                  (tr ++ declined_events (S (length older)) newer obj
                      ++ [ConsoleLog "procIdx:" (length older);
                          Invoke p "detect" [obj]; Invoke p "copy" [obj]]) in
     (∀ q, q ∈ newer → declines host procs obj h q) →
     detector_answers host procs obj h p d h1 → truthy d = true →
     copier_answers host procs obj h1 p c h2 →
     closed_value h2 c →
     TransferMap_get tMap obj = VNull →
     (c ≠ VUndefined →
      _handleObjectClone host rec obj tMap (State h procs tr) = Ok (c, tMap) st')
     ∧ (c = VUndefined →
        _handleObjectClone host rec obj tMap (State h procs tr)
        = _handleObjectClone_builtin host rec obj tMap st')
     ∧ (c ≠ VUndefined → ∀ o fuel,
          h !! l = Some o → is_callable o = false →
          CY_clone host (S fuel) obj (State h procs tr) = Ok c st'))
  ∧ (∀ procs obj h,
       (∀ q, q ∈ procs → declines host procs obj h q) →
       TransferMap_get tMap obj = VNull →
       let st' := State h procs (tr ++ declined_events 0 procs obj) in
       _attemptCustomClone host obj (State h procs tr) = Ok VUndefined st'
       ∧ _handleObjectClone host rec obj tMap (State h procs tr)
         = _handleObjectClone_builtin host rec obj tMap st').
Proof.
  assert (∀ c st2, closed_value (st_heap st2) c → c ≠ VUndefined →
            ∃ t, typeof_ c st2 = Ok t st2
                 ∧ String.eqb t "undefined" = false) as Htypeof.
  { intros c [h2 procs tr'] Hcv Hne. destruct c as [| | | | |lc]; try done;
      try (eexists; split; [reflexivity|done]).
    cbn in Hcv. destruct (lookup_lt_is_Some_2 h2 lc Hcv) as [oc Hoc].
    eexists. split; [by apply (run_typeof_ref lc oc)|]. by destruct (is_callable oc). }
  assert (∀ obj st v st2,
            TransferMap_get tMap obj = VNull →
            _attemptCustomClone host obj st = Ok v st2 →
            _handleObjectClone host rec obj tMap st
            = (t ← typeof_ v;
               if negb (String.eqb t "undefined") then mret (v, tMap)
               else _handleObjectClone_builtin host rec obj tMap) st2) as Hstep.
  { intros obj st v st2 Hget E. unfold _handleObjectClone. rewrite Hget.
    change (negb (strict_equals VNull VNull)) with false. cbv iota.
    by rewrite bind_run, E. }
  split.
  - intros older newer p d c l h h1 h2 procs obj st' Hnewer Hp Hd Hc Hcv Hget.
    assert (_attemptCustomClone host obj (State h procs tr) = Ok c st') as E.
    { subst procs obj st'.
      rewrite (attempt_first_match host older p newer (VRef l) h tr d h1 Hnewer Hp Hd).
      rewrite Hc. by rewrite <- !app_assoc. }
    assert (c ≠ VUndefined →
            _handleObjectClone host rec obj tMap (State h procs tr) = Ok (c, tMap) st') as H1.
    { intros Hne. rewrite (Hstep _ _ _ _ Hget E), bind_run.
      destruct (Htypeof c st' Hcv Hne) as (t & -> & ->). done. }
    split_and!; [done| |].
    + intros ->. by rewrite (Hstep _ _ _ _ Hget E).
    + intros Hne o fuel Hl Hco. rewrite CY_clone_run. cbn [_iSClone].
      change (strict_equals obj VNull) with false. cbv iota.
      rewrite bind_run. unfold obj at 1. rewrite (run_typeof_ref l o), Hco by done.
      change (String.eqb "object" "object") with true. cbv iota.
      assert (TransferMap_get TransferMap_new obj = VNull) as Hnew by done.
      assert (_handleObjectClone host (_iSClone host fuel) obj TransferMap_new
                (State h procs tr) = Ok (c, TransferMap_new) st') as ->; [|done].
      unfold _handleObjectClone. rewrite Hnew.
      change (negb (strict_equals VNull VNull)) with false. cbv iota.
      rewrite bind_run, E, bind_run.
      destruct (Htypeof c st' Hcv Hne) as (t & -> & ->). done.
  - intros procs obj h Hall Hget st'.
    assert (_attemptCustomClone host obj (State h procs tr) = Ok VUndefined st') as E
      by (by apply attempt_none_match).
    split; [done|]. by rewrite (Hstep _ _ _ _ Hget E).
Qed.

(** ** Cycles and shared references *)



(** ** Cloning a clone *)

Lemma is_composite_frame h h' v :
  closed_value h v → (∀ l, l < length h → h' !! l = h !! l) →
  is_composite h' v = is_composite h v.
Proof.
  intros Hcv Hfr. destruct v; try done. cbn in *. by rewrite Hfr.
Qed.


(** ** The properties at work on the examples *)


Lemma ex_heap_standard : standard_valueOf ex_heap.
Proof. apply standard_valueOfb_sound. vm_compute. reflexivity. Qed.







(** The procedure at address 8 never matches: its detector answers
    [false]. *)
Lemma ex_heap_declines : resolver_declines ex_host [VRef 8] ex_heap.
Proof.
  apply resolver_declines_never. constructor; [|constructor].
  exists 8, (ex_record [("detect", VRef 4); ("copy", VRef 5)]), 4,
    (ex_function 2 []), 2.
  split_and!; [reflexivity..|]. intros this args h.
  exists (VBool false). by split.
Qed.

Lemma C10_witness :
  typeof_ (VRef 10) (ex_state []) = Ok "function" (ex_state [])
  ∧ CY_defineCloneProcedure (VRef 10) (ex_state []) = Ok false (ex_state []).
Proof.
  destruct C10_registration_requires_object_type as [_ H].
  apply (H (ex_state []) 10 (ex_function 0 [("detect", VRef 2); ("copy", VRef 6)]));
    reflexivity.
Defined.

Lemma C8_witness :
  TransferMap_set (register_all ex_ops) (VRef 0) (VRef 9) = register_all ex_ops
  ∧ TransferMap_get (register_all ex_ops) (VRef 0) = VRef 5.
Proof.
  destruct C8_transfer_map_first_write_wins as [Hset Hall].
  split.
  - apply Hset. vm_compute. discriminate.
  - destruct (Hall ex_ops) as (_ & Hget & _). rewrite Hget. reflexivity.
Defined.

Lemma C7_witness :
  ∃ tr', CY_clone ex_host 1 (VRef 12) (ex_state [VRef 8])
         = Ok (VRef 14)
             (State (ex_heap ++ [Obj (PStd "RegExp")
                        (KRegExp (RegExp (Pattern "ab" false)
                                    true true false false false 0)) ∅])
                [VRef 8] tr').
Proof.
  destruct (C7_regexp_rebuilt_from_source_and_gim ex_host [VRef 8] ex_heap []
              12
              (Obj (PStd "RegExp")
                 (KRegExp (RegExp (Pattern "ab" false)
                             true true false true false 3)) ∅)
              (RegExp (Pattern "ab" false) true true false true false 3) 0
              eq_refl eq_refl) as (_ & _ & _ & H).
  exact (H ex_heap_declines (ex_heap_standard 12 _ eq_refl eq_refl)).
Defined.

Lemma ex_declines (procs : list value) (obj : value) :
  declines ex_host procs obj ex_heap (VRef 8).
Proof. exists (VBool false). split; [intros tr; reflexivity|reflexivity]. Defined.

Lemma C6_witness :
  _attemptCustomClone ex_host (VRef 1) (ex_state [VRef 9; VRef 13; VRef 8])
  = Ok VNull
      (State ex_heap [VRef 9; VRef 13; VRef 8]
         [ConsoleLog "procIdx:" 2; Invoke (VRef 8) "detect" [VRef 1];
          ConsoleLog "procIdx:" 1; Invoke (VRef 13) "detect" [VRef 1];
          Invoke (VRef 13) "copy" [VRef 1]]).
Proof.
  destruct (C6_most_recent_matching_procedure_wins ex_host [VRef 9] [VRef 8]
              (VRef 13) (VRef 1) (VBool true) ex_heap ex_heap []) as [_ H].
  - intros q ->%list_elem_of_singleton. apply ex_declines.
  - intros tr. reflexivity.
  - reflexivity.
  - apply (H VNull ex_heap). intros tr. reflexivity.
Defined.

Lemma C4_witness :
  _handleObjectClone ex_host (_iSClone ex_host 5) (VRef 1) TransferMap_new
    (ex_state [VRef 9; VRef 13; VRef 8])
  = Ok (VNull, TransferMap_new)
      (State ex_heap [VRef 9; VRef 13; VRef 8]
         [ConsoleLog "procIdx:" 2; Invoke (VRef 8) "detect" [VRef 1];
          ConsoleLog "procIdx:" 1; Invoke (VRef 13) "detect" [VRef 1];
          Invoke (VRef 13) "copy" [VRef 1]]).
Proof.
  destruct (C4_custom_copy_result_unless_undefined ex_host (_iSClone ex_host 5)
              TransferMap_new []) as [H _].
  destruct (H [VRef 9] [VRef 8] (VRef 13) (VBool true) VNull 1
              ex_heap ex_heap ex_heap) as (H1 & _ & _).
  - intros q ->%list_elem_of_singleton. apply ex_declines.
  - intros tr. reflexivity.
  - reflexivity.
  - intros tr. reflexivity.
  - exact I.
  - reflexivity.
  - apply H1. discriminate.
Defined.






(** Against claim C4 as stated: the only registered procedure detects the
    record at address 1 and its copy function answers [undefined]; the
    clone is not [undefined] but the record the built-in handling
    allocates at address 14. *)
Lemma C4_counterexample :
  _attemptCustomClone ex_host (VRef 1) (ex_state [VRef 7])
  = Ok VUndefined
      (State ex_heap [VRef 7]
         [ConsoleLog "procIdx:" 0; Invoke (VRef 7) "detect" [VRef 1];
          Invoke (VRef 7) "copy" [VRef 1]])
  ∧ CY_clone ex_host 20 (VRef 1) (ex_state [VRef 7])
    = Ok (VRef 14)
        (State (ex_heap ++ [ex_record []]) [VRef 7]
           [ConsoleLog "procIdx:" 0; Invoke (VRef 7) "detect" [VRef 1];
            Invoke (VRef 7) "copy" [VRef 1]])
  ∧ (∀ st', CY_clone ex_host 20 (VRef 1) (ex_state [VRef 7])
            ≠ Ok VUndefined st').
Proof. split_and!; [by vm_compute..|]. by vm_compute. Qed.



(** Against claim C7 as stated: the source of [/[\u{1F600}-\u{1F64F}]/u]
    is a pattern with the [u] flag only; its clone is not a regular
    expression without the flag, it is a SyntaxError. *)
Lemma C7_counterexample :
  (∃ o r, ex_unicode !! 0 = Some o ∧ okind o = KRegExp r
          ∧ unicode r = true ∧ unicode_only (source r) = true
          ∧ _handleRegExpClone_flags r = "")
  ∧ CY_clone ex_host 20 (VRef 0) (State ex_unicode [] [])
    = Throw (SyntaxError "Invalid regular expression: /[\u{1F600}-\u{1F64F}]/")
        (State ex_unicode [] [])
  ∧ ∀ c st', CY_clone ex_host 20 (VRef 0) (State ex_unicode [] []) ≠ Ok c st'.
Proof.
  split_and!.
  - eexists _, _. split_and!; reflexivity.
  - vm_compute. reflexivity.
  - by vm_compute.
Qed.


(** * Further properties of the engine *)

(** ** Transfer maps: lookups after insertions *)

Lemma present_strict_equals xs x y :
  present xs x = true → strict_equals x y = true → present xs y = true.
Proof.
  rewrite !present_elem. intros (z & Hz & Hzx) Hxy.
  exists z. split; [done|]. by eapply strict_equals_trans.
Qed.

Lemma strict_equals_NaN n v :
  num_is_NaN n = true → strict_equals v (VNumber n) = false.
Proof.
  intros Hn. destruct v; try done. unfold strict_equals.
  rewrite Hn. by rewrite orb_true_r.
Qed.

Lemma present_NaN xs n : num_is_NaN n = true → present xs (VNumber n) = false.
Proof.
  intros Hn. unfold present. induction xs as [|y ys IH]; [done|].
  cbn [existsb]. by rewrite IH, strict_equals_NaN.
Qed.

(** Property X1.  What [get] answers after a [set], in a map whose two
    sequences have the same length: for a key already recorded, what it
    answered before; for a new key, the output just set when the key is
    [===] to the input of the [set], and [null] otherwise.  So a [set]
    never changes the answer for another key, and never overwrites. *)
Theorem X1_get_after_set (tm : TransferMap) (input output key : value) :
  length (inputs tm) = length (outputs tm) →
  TransferMap_get (TransferMap_set tm input output) key
  = if present (inputs tm) key then TransferMap_get tm key
    else if strict_equals input key then output else VNull.
Proof.
  intros Hlen. destruct (present (inputs tm) input) eqn:Hi.
  - rewrite TransferMap_set_no_op by (by apply indexOf_present_iff).
    destruct (present (inputs tm) key) eqn:Hk; [done|].
    destruct (strict_equals input key) eqn:He.
    + by rewrite (present_strict_equals _ _ _ Hi He) in Hk.
    + by apply TransferMap_get_miss.
  - rewrite TransferMap_set_new by done.
    destruct (present (inputs tm) key) eqn:Hk.
    + apply TransferMap_get_prefix; cbn; try done; by apply prefix_app_r.
    + destruct (strict_equals input key) eqn:He.
      * rewrite (TransferMap_get_found _ _ (length (inputs tm))).
        -- cbn [outputs]. rewrite Hlen. by rewrite list_lookup_middle.
        -- cbn [inputs]. rewrite indexOf_app, Hk. unfold present, indexOf.
           cbn [existsb indexOf_from]. rewrite He. cbn [orb]. lia.
      * apply TransferMap_get_miss. cbn [inputs]. rewrite present_app, Hk.
        unfold present. cbn [existsb]. by rewrite He.
Qed.

(** Property X2.  [NaN] is never found: [indexOf] compares with [===], so
    [get(NaN)] answers [null] in every map, even right after
    [set(NaN, output)], and every [set(NaN, output)] appends one more
    entry. *)
Theorem X2_NaN_key_never_found (tm : TransferMap) (n : number)
    (output : value) :
  num_is_NaN n = true →
  TransferMap_get tm (VNumber n) = VNull
  ∧ TransferMap_set tm (VNumber n) output
    = mkTransferMap (inputs tm ++ [VNumber n]) (outputs tm ++ [output])
  ∧ TransferMap_get (TransferMap_set tm (VNumber n) output) (VNumber n)
    = VNull.
Proof.
  intros Hn. split_and!.
  - apply TransferMap_get_miss. by apply present_NaN.
  - apply TransferMap_set_new. by apply present_NaN.
  - apply TransferMap_get_miss. by apply present_NaN.
Qed.

(** Property X3.  [undefined], [null], booleans, numbers and strings are
    returned as they are: nothing is allocated, and no custom procedure is
    consulted, whatever the registry holds. *)
Theorem X3_primitives_returned_as_they_are (host : host_env) (v : value)
    (fuel : nat) (st : state) :
  (∀ l, v ≠ VRef l) →
  CY_clone host (S fuel) v st = Ok v st.
Proof.
  intros Hv. destruct v; try done. by destruct (Hv l).
Qed.

(** Property X4.  The clone of a String, Number or Boolean wrapper or of
    a Date that has the standard [valueOf] of its class, when the
    detectors of the registered procedures decline: one new object of the
    same class with the same primitive value, whose prototype is the
    standard one of the class and which has no member: the members and
    the prototype of the original are not carried over. *)
Theorem X4_wrapper_clone_keeps_value_only (host : host_env)
    (procs : list value) (h : heap) (tr : list event) (l : loc) (o : obj)
    (cls : string) (fuel : nat) :
  resolver_declines host procs h →
  h !! l = Some o → valueOf_standard_at h l o →
  wrapper_class (okind o) = Some cls →
  ∃ tr', CY_clone host (S fuel) (VRef l) (State h procs tr)
         = Ok (VRef (length h))
             (State (h ++ [Obj (PStd cls) (okind o) ∅]) procs tr').
Proof.
  intros Hdecl Hl Hstd Hw.
  apply (clone_leaf host procs h tr l o _ fuel Hdecl Hl Hstd).
  unfold shell_of. destruct (okind o); cbn in Hw; by simplify_eq.
Qed.

(** ** The test for HTML elements *)

Lemma string_app_cons a (s t : string) : String a s +:+ t = String a (s +:+ t).
Proof. reflexivity. Qed.

Lemma string_app_nil (t : string) : "" +:+ t = t.
Proof. reflexivity. Qed.

Lemma string_app_assoc (s t u : string) : (s +:+ t) +:+ u = s +:+ t +:+ u.
Proof.
  induction s as [|a s IH]; [done|]. rewrite !string_app_cons. by rewrite IH.
Qed.

Lemma strip_prefix_Some p s r : strip_prefix p s = Some r ↔ s = p +:+ r.
Proof.
  revert s. induction p as [|a p IH]; intros s.
  - cbn [strip_prefix]. rewrite string_app_nil. split; congruence.
  - rewrite string_app_cons. destruct s as [|b s]; cbn [strip_prefix]; [done|].
    destruct (Ascii.eqb_spec a b) as [->|Hne].
    + rewrite IH. split; [by intros ->|by intros [= ->]].
    + split; [done|]. intros [= ? ?]. done.
Qed.

Lemma at_line_terminator_app (m : string) :
  m ≠ "" → at_line_terminator (m +:+ "Element]") = at_line_terminator m.
Proof.
  intros Hm. destruct m as [|c0 m]; [done|]. clear Hm.
  unfold at_line_terminator, head_char. rewrite string_app_cons.
  generalize (N_of_ascii c0). intros b0.
  destruct (b0 <? 128)%N; [done|].
  destruct ((192 <=? b0)%N && (b0 <? 224)%N).
  { destruct m as [|c1 m]; [reflexivity|]. rewrite string_app_cons.
    destruct (continuation c1); [|done]. unfold at_least. cbn [fst]. by destruct (_ <=? _)%N. }
  destruct ((224 <=? b0)%N && (b0 <? 240)%N).
  { destruct m as [|c1 [|c2 m]]; rewrite ?string_app_cons, ?string_app_nil.
    - reflexivity.
    - change (continuation "E") with (@None N). by destruct (continuation c1).
    - destruct (continuation c1), (continuation c2); try done.
      unfold at_least. cbn [fst]. by destruct (_ <=? _)%N. }
  destruct ((240 <=? b0)%N && (b0 <? 248)%N); [|done].
  destruct m as [|c1 [|c2 [|c3 m]]]; rewrite ?string_app_cons, ?string_app_nil.
  - reflexivity.
  - change (continuation "E") with (@None N). by destruct (continuation c1).
  - change (continuation "E") with (@None N).
    by destruct (continuation c1), (continuation c2).
  - destruct (continuation c1), (continuation c2), (continuation c3); try done.
    unfold at_least. cbn [fst]. by destruct (_ <=? _)%N.
Qed.

Lemma dot_star_then_true s :
  dot_star_then "Element]" s = true ↔
  ∃ mid, s = mid +:+ "Element]" ∧ no_line_terminator mid = true.
Proof.
  split.
  - induction s as [|c s IH]; cbn [dot_star_then].
    + rewrite orb_false_r. intros E%String.eqb_eq. done.
    + intros [->%String.eqb_eq|[Hc Hs]%andb_true_iff]%orb_true_iff.
      * by exists "".
      * destruct (IH Hs) as (mid & -> & Hmid). exists (String c mid).
        split; [done|]. cbn [no_line_terminator]. rewrite Hmid, andb_true_r.
        rewrite <- Hc. f_equal. symmetry.
        by apply (at_line_terminator_app (String c mid)).
  - intros (mid & -> & Hmid). induction mid as [|c mid IH].
    + reflexivity.
    + rewrite string_app_cons. cbn [dot_star_then no_line_terminator] in *.
      apply andb_true_iff in Hmid as [Hc Hmid]. rewrite (IH Hmid).
      rewrite <- string_app_cons, at_line_terminator_app, Hc by done.
      by rewrite orb_true_r.
Qed.

Lemma html_test_true (s : string) :
  _htmlElementRE_test s = true ↔
  ∃ c rest mid,
    s = "[object" +:+ rest
    ∧ head_char rest = Some (c, "HTML" +:+ mid +:+ "Element]")
    ∧ is_white_space c = true ∧ no_line_terminator mid = true.
Proof.
  unfold _htmlElementRE_test. split.
  - destruct (strip_prefix "[object" s) as [s1|] eqn:E1; [|done].
    apply strip_prefix_Some in E1 as ->.
    destruct (head_char s1) as [[c s2]|] eqn:E2; [|done].
    intros [Hc H]%andb_true_iff.
    destruct (strip_prefix "HTML" s2) as [s3|] eqn:E3; [|done].
    apply strip_prefix_Some in E3 as ->.
    apply dot_star_then_true in H as (mid & -> & Hmid). by exists c, s1, mid.
  - intros (c & rest & mid & -> & Hh & Hc & Hmid).
    rewrite (proj2 (strip_prefix_Some "[object" _ _) eq_refl).
    rewrite Hh, Hc. cbn [andb].
    rewrite (proj2 (strip_prefix_Some "HTML" _ _) eq_refl).
    apply dot_star_then_true. by exists mid.
Qed.

Lemma html_class_tag (cls : string) :
  _htmlElementRE_test ("[object " +:+ cls +:+ "]") = true ↔
  ∃ mid, cls = "HTML" +:+ mid +:+ "Element" ∧ no_line_terminator mid = true.
Proof.
  rewrite html_test_true. split.
  - intros (c & rest & mid & E & Hh & Hc & Hmid). exists mid. split; [|done].
    change ("[object " +:+ cls +:+ "]")
      with ("[object" +:+ String " " (cls +:+ "]")) in E.
    apply (inj (String.append "[object")) in E. subst rest.
    change (head_char (String " " (cls +:+ "]")))
      with (Some (32%N, cls +:+ "]")) in Hh.
    injection Hh as <- E.
    apply (string_app_inv_tail _ _ "]").
    rewrite E. change "Element]" with ("Element" +:+ "]").
    by rewrite !string_app_assoc.
  - intros (mid & -> & Hmid).
    exists 32%N, (String " " (("HTML" +:+ mid +:+ "Element") +:+ "]")), mid.
    split; [done|]. split; [|done].
    change "Element]" with ("Element" +:+ "]").
    by rewrite !string_app_assoc.
Qed.

Lemma html_class_not_builtin mid :
  let cls := "HTML" +:+ mid +:+ "Element" in
  String.eqb cls "Boolean" = false ∧ String.eqb cls "Object" = false
  ∧ is_stuck_class cls = false.
Proof. intros cls. split_and!; reflexivity. Qed.

(** Property X5.  What [_htmlElementRE] accepts: exactly the strings
    ["[object"], one white-space character (in the sense of [\s]: a no-break
    space or a line separator as well as a space), ["HTML"], any characters
    other than line terminators, ["Element]"].  For the tag of a class,
    which [_toString] builds with a space: exactly the classes
    [HTML...Element], [HTMLElement] itself included; so a text node, a
    document or an SVG element is not taken for an HTML element.  The
    last two conjuncts are instances: U+00A0, U+2003 and U+FEFF are
    accepted for the white space, and no line terminator (LF, CR, U+2028,
    U+2029) is accepted in the middle. *)
Theorem X5_html_element_test :
  (∀ s, _htmlElementRE_test s = true ↔
     ∃ c rest mid,
       s = "[object" +:+ rest
       ∧ head_char rest = Some (c, "HTML" +:+ mid +:+ "Element]")
       ∧ is_white_space c = true ∧ no_line_terminator mid = true)
  ∧ (∀ cls, _htmlElementRE_test ("[object " +:+ cls +:+ "]") = true ↔
       ∃ mid, cls = "HTML" +:+ mid +:+ "Element"
              ∧ no_line_terminator mid = true)
  ∧ forallb (λ c, _htmlElementRE_test
                    ("[object" +:+ encode c +:+ "HTMLDivElement]"))
      [32; 160; 8195; 65279]%N = true
  ∧ forallb (λ c, negb (_htmlElementRE_test
                          ("[object HTML" +:+ encode c +:+ "Element]")))
      [10; 13; 8232; 8233]%N = true.
Proof.
  split_and!; [apply html_test_true|apply html_class_tag|..];
    vm_compute; reflexivity.
Qed.

(** Property X6.  An HTML element that has a callable [cloneNode] (and
    the standard [valueOf]) is cloned, when the detectors of the registered
    procedures decline, by [input.cloneNode()], called without argument,
    and by nothing else: the clone is what [cloneNode] returns, and the
    members of the element are not visited. *)
Theorem X6_html_element_cloned_by_cloneNode (host : host_env)
    (procs : list value) (h : heap) (tr : list event) (l : loc) (o : obj)
    (cls : string) (fuel : nat) :
  resolver_declines host procs h →
  h !! l = Some o → valueOf_standard_at h l o →
  okind o = KOther cls true →
  _htmlElementRE_test ("[object " +:+ cls +:+ "]") = true →
  ∃ tr', CY_clone host (S fuel) (VRef l) (State h procs tr)
         = cloneNode (VRef l) (State h procs tr')
    ∧ cloneNode (VRef l) (State h procs tr')
      = Ok (VRef (length h))
          (State (h ++ [Obj (oproto o) (KOther cls true) ∅]) procs tr').
Proof.
  intros Hdecl Hl Hstd Hk Hre.
  destruct (clone_leaf host procs h tr l o (Obj (oproto o) (KOther cls true) ∅)
              fuel Hdecl Hl Hstd) as [tr' E].
  - unfold shell_of. rewrite Hk, Hre.
    apply html_class_tag in Hre as (mid & -> & _).
    by destruct (html_class_not_builtin mid) as (-> & -> & ->).
  - exists tr'. rewrite E.
    assert (cloneNode (VRef l) (State h procs tr')
            = Ok (VRef (length h))
                (State (h ++ [Obj (oproto o) (KOther cls true) ∅]) procs tr'))
      as Hcn.
    { unfold cloneNode. rewrite bind_run, (run_lookup_obj l o) by done.
      by rewrite Hk. }
    by rewrite Hcn.
Qed.

(** ** Objects the cloner rejects *)

(** Property X7.  An object of a class the [switch] does not know (an
    Error, the arguments object, [Math], a DOM node that is not an HTML
    element or has no callable [cloneNode]) is rejected with the TypeError
    ["Don't know how to clone object of type [object <Class>]"]; nothing
    has been allocated when it is thrown.  This is for an object with the
    standard [valueOf], which is called first, when the detectors of the
    registered procedures decline. *)
Theorem X7_unknown_class_rejected (host : host_env) (procs : list value)
    (h : heap) (tr : list event) (l : loc) (o : obj) (cls : string)
    (cn : bool) (fuel : nat) :
  resolver_declines host procs h →
  h !! l = Some o → valueOf_standard_at h l o →
  okind o = KOther cls cn →
  cls ∉ ["String"; "Number"; "Boolean"; "Date"; "RegExp"; "Array"; "Object"] →
  _htmlElementRE_test ("[object " +:+ cls +:+ "]") && cn = false →
  ∃ tr', CY_clone host (S fuel) (VRef l) (State h procs tr)
         = Throw (TypeError ("Don't know how to clone object of type [object "
                             +:+ cls +:+ "]")) (State h procs tr').
Proof.
  intros Hdecl Hl Hstd Hk Hcls Hnode.
  assert (is_callable o = false) as Hc by (unfold is_callable; by rewrite Hk).
  apply (clone_rejected host procs h tr l o); try done.
  unfold rejection. rewrite Hk, Hnode, orb_false_r.
  assert (existsb (String.eqb cls)
            ["String"; "Number"; "Boolean"; "Date"; "RegExp"; "Array";
             "Object"] = false) as ->; [|done].
  apply not_true_is_false. intros (x & Hx & ->%String.eqb_eq)%existsb_exists.
  by apply Hcls, list_elem_of_In.
Qed.

(** Property X8.  [input.valueOf()] is called on every object before its
    class is looked at.  So an object that has no [valueOf] at all (its
    prototype chain ends with [null], as for [Object.create(null)]), or
    whose [valueOf] is not callable (a record with a data member of that
    name), is rejected with a TypeError, whatever its class, when the
    detectors of the registered procedures decline; nothing has been
    allocated when it is thrown. *)
Theorem X8_object_without_valueOf_rejected (host : host_env)
    (procs : list value) (h : heap) (tr : list event) (l : loc) (o : obj)
    (fuel : nat) :
  resolver_declines host procs h →
  h !! l = Some o → is_callable o = false →
  (find_property (S (length h)) h l "valueOf" = Some NotFound
   ∨ ∃ v, find_property (S (length h)) h l "valueOf" = Some (FoundValue v)
          ∧ (is_composite h v = true ∨ ∀ lf, v ≠ VRef lf)) →
  ∃ msg tr', CY_clone host (S fuel) (VRef l) (State h procs tr)
             = Throw (TypeError msg) (State h procs tr').
Proof.
  intros Hdecl Hl Hc Hf.
  destruct (clone_enters_builtin host procs h tr l o fuel Hdecl Hl Hc) as [tr' ->].
  exists "valueOf is not a function", tr'. unfold _handleObjectClone_builtin. rewrite bind_run.
  unfold call_method. rewrite bind_run. cbn [get_heap st_heap].
  destruct Hf as [->|(v & -> & Hv)]; [done|].
  destruct Hv as [Hcomp|Hprim].
  - destruct (is_composite_inv _ _ Hcomp) as (lf & f & -> & Hlf & Hcf).
    rewrite bind_run, (run_lookup_obj lf f) by done.
    unfold is_callable in Hcf. by destruct (okind f).
  - destruct v as [| | | | |lf]; try done. by destruct (Hprim lf).
Qed.

(** ** What a completed clone guarantees *)

Section Completed.
Context (host : host_env) (procs : list value) (h : heap).
Hypothesis Hdecl : resolver_declines host procs h.
Hypothesis Hclosed : heap_closed h.
Hypothesis Hstd : standard_valueOf h.
Hypothesis Hnoproto : no_proto_member h.

Lemma clone_done tr fuel x c st' :
  closed_value h x →
  CY_clone host fuel x (State h procs tr) = Ok c st' →
  ∃ tm', procedures st' = procs
         ∧ Inv h tm' (st_heap st')
         ∧ grows h TransferMap_new h tm' (st_heap st')
         ∧ c = img h tm' x ∧ mapped h tm' x.
Proof.
  intros Hcv E.
  pose proof (clone_top host procs h Hdecl Hclosed Hstd Hnoproto _
                (no_support_needed h) tr fuel x Hcv) as H.
  rewrite E in H. destruct H as (tm' & Hp & [HI Hg Hout Hm _ _]). eauto 10.
Qed.
End Completed.



(** Property X11.  The clone of a record or of an array: a new object of
    the same kind (an array keeps its length) whose own members have
    exactly the names of the own members of the original, so that a member
    the original only inherits is not copied and a hole of an array stays a
    hole.  A member that is not an object, or that is a function, is kept
    as it is; a member that is an object is replaced by a new object.  The
    clone of a record has the prototype of the record, not a clone of it;
    the clone of an array has [Array.prototype].  This is for the built-in handling of an ordinary heap: the
    detectors of the registered procedures decline, no reference dangles,
    and no object has an own member named [__proto__] or, unless it is a
    function, another [valueOf] than the standard one of its class. *)
Theorem X11_collection_clone_members (host : host_env) (procs : list value)
    (h : heap) (tr : list event) (l : loc) (a : obj) (fuel : nat) (c : value)
    (st' : state) :
  resolver_declines host procs h → heap_closed h → standard_valueOf h →
  no_proto_member h →
  h !! l = Some a → is_collection a →
  CY_clone host fuel (VRef l) (State h procs tr) = Ok c st' →
  ∃ lc oc,
    c = VRef lc ∧ length h ≤ lc ∧ st_heap st' !! lc = Some oc
    ∧ okind oc = okind a
    ∧ oproto oc = match okind a with
                  | KObject => oproto a
                  | _ => PStd "Array"
                  end
    ∧ (∀ k, is_Some (oprops oc !! k) ↔ is_Some (oprops a !! k))
    ∧ (∀ k v, oprops a !! k = Some v → is_composite h v = false →
         oprops oc !! k = Some v)
    ∧ (∀ k v, oprops a !! k = Some v → is_composite h v = true →
         ∃ lv, oprops oc !! k = Some (VRef lv) ∧ length h ≤ lv).
Proof.
  intros Hdecl Hclosed Hstd Hnp Hl Hcoll E.
  destruct (collection_shell a Hcoll) as [Hc _].
  destruct (clone_composite host procs h Hdecl Hclosed Hstd Hnp tr fuel l a c st' Hl Hc E)
    as (tm' & lc & -> & Hlc & HI & Hg & Himg & Hcp).
  destruct Hcp as (l1 & l2 & o & sh & cc & E1 & E2 & Ho & Hsh & Hout & Hm).
  simplify_eq.
  assert (cc = true ∧ okind sh = okind a
          ∧ oproto sh = match okind a with
                        | KObject => oproto a | _ => PStd "Array" end)
    as (-> & Hk & Hp).
  { unfold shell_of in Hsh. destruct Hcoll as [Ek|[len Ek]]; rewrite Ek in *;
      by simplify_eq. }
  eexists l2, _. split_and!; try done.
  - cbn. intros k. by rewrite lookup_fmap, fmap_is_Some.
  - intros k v Hv Hnc. cbn. rewrite lookup_fmap, Hv. cbn. unfold img.
    by rewrite Hnc.
  - intros k v Hv Hcomp. cbn. rewrite lookup_fmap, Hv. cbn.
    destruct (entry_of h tm' _ v HI Hg Hcomp (Hm eq_refl k v Hv))
      as (lv & -> & Hlv & _). eauto.
Qed.







(** ** Plain data *)

Lemma is_plainb_sound o : is_plainb o = true → is_plain o.
Proof.
  unfold is_plainb, is_plain. destruct (shell_of o) as [[sh c]|] eqn:Hsh; [|done].
  intros [[Hp%bool_decide_eq_true Hk%bool_decide_eq_true]%andb_true_iff
            Hc]%andb_true_iff.
  exists c. split.
  - pose proof (shell_of_props _ _ _ Hsh) as He. destruct sh as [p k ps].
    cbn in *. by subst.
  - intros ->. cbn in Hc. by apply bool_decide_eq_true in Hc.
Qed.

Lemma plain_heapb_sound h : plain_heapb h = true → plain_heap h.
Proof.
  unfold plain_heapb. rewrite forallb_forall. intros H l o Hl Hc.
  apply list_elem_of_lookup_2, list_elem_of_In in Hl.
  specialize (H o Hl). rewrite Hc in H. by apply is_plainb_sound.
Qed.

(** The pairing a transfer map records relates every value to its image,
    when the originals are plain. *)
Lemma clone_structural h tm' h' x :
  heap_closed h → plain_heap h →
  Inv h tm' h' → grows h TransferMap_new h tm' h' →
  closed_value h x → mapped h tm' x →
  structurally_equal h' x (img h tm' x).
Proof.
  intros Hclosed Hplain HI Hg Hcv Hm.
  assert (∀ v, closed_value h v → is_composite h' v = is_composite h v) as Hcomp.
  { intros v Hv. apply is_composite_frame; [done|]. apply HI. }
  assert (∀ v, closed_value h v → mapped h tm' v →
            related h' (pairing tm') v (img h tm' v)) as Hrel.
  { intros v Hv Hmv. unfold related. rewrite Hcomp by done.
    destruct (is_composite h v) eqn:Hc.
    - destruct (entry_index h tm' h' v HI Hc Hmv)
        as (i & l & l' & -> & Hi & Ho & ->).
      exists l, l'. split_and!; try done. apply elem_of_pairing. eauto.
    - unfold img. by rewrite Hc. }
  exists (pairing tm'). split_and!.
  - by apply Hrel.
  - intros a b b' (i & Hi & Ho)%elem_of_pairing (j & Hj & Ho')%elem_of_pairing.
    pose proof (NoDup_lookup _ _ _ _ (inv_nodup_in HI) Hi Hj). congruence.
  - intros a a' b (i & Hi & Ho)%elem_of_pairing (j & Hj & Ho')%elem_of_pairing.
    pose proof (NoDup_lookup _ _ _ _ (inv_nodup_out HI) Ho Ho'). congruence.
  - intros a b (i & Hi & Ho)%elem_of_pairing.
    destruct (grows_new Hg i _ _ ltac:(cbn; lia) Hi Ho)
      as [(a' & b' & oa & sh & c & Ea & Eb & Hoa & Hsh & Hob & Hmem) _].
    injection Ea as <-. injection Eb as <-.
    assert (is_composite h (VRef a) = true) as Hca.
    { apply (inv_in HI). by eapply list_elem_of_lookup_2. }
    assert (is_callable oa = false) as Hnc.
    { cbn in Hca. rewrite Hoa in Hca. by destruct (is_callable oa). }
    destruct (Hplain a oa Hoa Hnc) as (c' & Hsh' & Hempty).
    rewrite Hsh in Hsh'. simplify_eq.
    eexists oa, _. split_and!; try done.
    + rewrite (inv_low HI); [done|]. by eapply lookup_lt_Some.
    + intros k. cbn. destruct c'.
      * rewrite lookup_fmap. destruct (oprops oa !! k) as [v|] eqn:Hv; [|constructor].
        constructor. apply Hrel; [by eapply Hclosed|by eapply Hmem].
      * rewrite Hempty by done. rewrite lookup_empty. constructor.
Qed.

(** Property X14.  On plain data the clone is structurally equal to its
    original: some one-to-one pairing of the objects of the original with
    new objects relates the input to the clone, and paired objects have the
    same class and internal value, the same prototype and the same member
    names, with members that are equal primitives, the same function, or
    paired objects.  Cycles and shared members are reproduced as they
    are.  Plain data: every object that is not a function is its own
    shell (a record, an array, or a wrapper, date or regular expression in
    the form the constructors give it, without members).  This is for the built-in handling of an ordinary heap: the
    detectors of the registered procedures decline, no reference dangles,
    and no object has an own member named [__proto__] or, unless it is a
    function, another [valueOf] than the standard one of its class. *)
Theorem X14_clone_equal_to_plain_original (host : host_env)
    (procs : list value) (h : heap) (tr : list event) (x : value)
    (fuel : nat) (c : value) (st' : state) :
  resolver_declines host procs h → heap_closed h → standard_valueOf h →
  no_proto_member h →
  plain_heap h → closed_value h x →
  CY_clone host fuel x (State h procs tr) = Ok c st' →
  structurally_equal (st_heap st') x c.
Proof.
  intros Hdecl Hclosed Hstd Hnp Hplain Hcv E.
  destruct (clone_done host procs h Hdecl Hclosed Hstd Hnp tr fuel x c st' Hcv E)
    as (tm' & Hp & HI & Hg & -> & Hm).
  by apply clone_structural.
Qed.

(** ** The custom clone resolver: failures, registration, clearing *)

Lemma Get_keeps_state v name st r st' : Get v name st = Ok r st' → st' = st.
Proof.
  destruct v; try (cbn; munfold; congruence).
  unfold Get. rewrite bind_run. cbn [get_heap].
  destruct (find_property _ _ _ _) as [[ | | ]|]; cbn; munfold; congruence.
Qed.

Section Failures.
Context (host : host_env).

Lemma attempt_detect_runs older p newer obj h tr :
  let procs := older ++ p :: newer in
  (∀ q, q ∈ newer → declines host procs obj h q) →
  _attemptCustomClone host obj (State h procs tr)
  = (detected ← call_method host p "detect" [obj];
     if truthy detected then call_method host p "copy" [obj]
     else _attemptCustomClone_loop host (length older) obj)
      (State h procs
         (tr ++ declined_events (S (length older)) newer obj
             ++ [ConsoleLog "procIdx:" (length older)])).
Proof.
  intros procs Hd. unfold _attemptCustomClone. rewrite bind_run.
  cbn [procedures]. subst procs.
  assert (older ++ p :: newer = (older ++ [p]) ++ newer ++ []) as Hsplit
    by (by rewrite app_nil_r, <- app_assoc).
  rewrite Hsplit in *.
  replace (length ((older ++ [p]) ++ newer ++ []))
    with (length (older ++ [p]) + length newer)
    by (rewrite !length_app; simpl; lia).
  rewrite attempt_loop_declined by done.
  rewrite length_app. simpl. rewrite Nat.add_1_r.
  rewrite (attempt_loop_step _ _ _ p).
  2:{ rewrite <- app_assoc. by rewrite lookup_app_r, Nat.sub_diag by lia. }
  by rewrite <- !app_assoc.
Qed.

(** Property X15.  Nothing catches what a detector throws: when the
    procedures registered after [p] decline and the call [p.detect(obj)]
    throws (the detector itself, or the call, [detect] being no function
    any more), [_attemptCustomClone] throws the same exception in the same
    state, the procedures registered before [p] are not consulted, and
    [clone(obj)] throws it too. *)
Theorem X15_detector_exception_aborts_clone (older newer : list value)
    (p obj : value) (h : heap) (tr : list event) (e : exn) (st' : state) :
  let procs := older ++ p :: newer in
  let scanned := declined_events (S (length older)) newer obj
                 ++ [ConsoleLog "procIdx:" (length older)] in
  (∀ q, q ∈ newer → declines host procs obj h q) →
  call_method host p "detect" [obj] (State h procs (tr ++ scanned))
  = Throw e st' →
  _attemptCustomClone host obj (State h procs tr) = Throw e st'
  ∧ ∀ l o fuel, obj = VRef l → h !! l = Some o → is_callable o = false →
      CY_clone host (S fuel) obj (State h procs tr) = Throw e st'.
Proof.
  intros procs scanned Hd Hthrow.
  assert (_attemptCustomClone host obj (State h procs tr) = Throw e st') as Ha.
  { subst procs scanned. rewrite attempt_detect_runs by done.
    by rewrite bind_run, Hthrow. }
  split; [done|]. intros l o fuel -> Hl Hc.
  rewrite CY_clone_run. cbn [_iSClone].
  change (strict_equals (VRef l) VNull) with false. cbv iota.
  rewrite bind_run, (run_typeof_ref l o), Hc by done.
  change (String.eqb "object" "object") with true. cbv iota.
  unfold _handleObjectClone.
  change (TransferMap_get TransferMap_new (VRef l)) with VNull.
  change (negb (strict_equals VNull VNull)) with false. cbv iota.
  by rewrite bind_run, Ha.
Qed.
End Failures.

Lemma registration_state procObj st b st' :
  CY_defineCloneProcedure procObj st = Ok b st' →
  st' = State (st_heap st) (procedures st ++ (if b then [procObj] else []))
          (trace st).
Proof.
  assert (st = State (st_heap st) (procedures st ++ []) (trace st)) as Hst.
  { rewrite app_nil_r. by destruct st. }
  unfold CY_defineCloneProcedure. rewrite bind_run.
  destruct (typeof_ procObj st) as [t s1| |] eqn:Ht; [|done..].
  apply typeof_keeps_state in Ht as ->.
  destruct (String.eqb t "object"); [|intros [= <- <-]; done].
  rewrite bind_run.
  destruct (Get procObj "detect" st) as [fd s1| |] eqn:Hd; [|done..].
  apply Get_keeps_state in Hd as ->. rewrite bind_run.
  destruct (typeof_ fd st) as [td s1| |] eqn:Htd; [|done..].
  apply typeof_keeps_state in Htd as ->.
  destruct (String.eqb td "function"); [|intros [= <- <-]; done].
  rewrite bind_run.
  destruct (Get procObj "copy" st) as [fc s1| |] eqn:Hc; [|done..].
  apply Get_keeps_state in Hc as ->. rewrite bind_run.
  destruct (typeof_ fc st) as [tc s1| |] eqn:Htc; [|done..].
  apply typeof_keeps_state in Htc as ->.
  destruct (String.eqb tc "function"); [|intros [= <- <-]; done].
  by intros [= <- <-].
Qed.

(** Property X16.  What a registration that returns does: it changes
    neither the heap nor the trace, and the registry only by appending
    [procObj] at its end when it answers [true] (the same object may be
    appended again: there is no check for duplicates).  It answers [true]
    exactly when [typeof procObj] is ['object'] and both [procObj.detect]
    and [procObj.copy], own or inherited, are functions. *)
Theorem X16_registration_outcomes (procObj : value) (st : state) :
  (∀ b st', CY_defineCloneProcedure procObj st = Ok b st' →
     st' = State (st_heap st)
             (procedures st ++ (if b then [procObj] else [])) (trace st))
  ∧ ((∃ st', CY_defineCloneProcedure procObj st = Ok true st') ↔
     typeof_ procObj st = Ok "object" st
     ∧ ∃ fd fc, Get procObj "detect" st = Ok fd st
                ∧ typeof_ fd st = Ok "function" st
                ∧ Get procObj "copy" st = Ok fc st
                ∧ typeof_ fc st = Ok "function" st).
Proof.
  split; [intros b st'; apply registration_state|]. split.
  - intros [st' E]. unfold CY_defineCloneProcedure in E. rewrite bind_run in E.
    destruct (typeof_ procObj st) as [t s1| |] eqn:Ht; [|done..].
    pose proof (typeof_keeps_state _ _ _ _ Ht) as Hs. subst s1.
    destruct (String.eqb_spec t "object") as [Et|]; [subst t|done].
    rewrite bind_run in E.
    destruct (Get procObj "detect" st) as [fd s1| |] eqn:Hd; [|done..].
    pose proof (Get_keeps_state _ _ _ _ _ Hd) as Hs. subst s1.
    rewrite bind_run in E.
    destruct (typeof_ fd st) as [td s1| |] eqn:Htd; [|done..].
    pose proof (typeof_keeps_state _ _ _ _ Htd) as Hs. subst s1.
    destruct (String.eqb_spec td "function") as [Etd|]; [subst td|done].
    rewrite bind_run in E.
    destruct (Get procObj "copy" st) as [fc s1| |] eqn:Hc; [|done..].
    pose proof (Get_keeps_state _ _ _ _ _ Hc) as Hs. subst s1.
    rewrite bind_run in E.
    destruct (typeof_ fc st) as [tc s1| |] eqn:Htc; [|done..].
    pose proof (typeof_keeps_state _ _ _ _ Htc) as Hs. subst s1.
    destruct (String.eqb_spec tc "function") as [Etc|]; [subst tc|done].
    split; [done|]. by exists fd, fc.
  - intros (Ht & fd & fc & Hd & Htd & Hc & Htc).
    unfold CY_defineCloneProcedure.
    rewrite bind_run, Ht. change (String.eqb "object" "object") with true.
    cbv iota. rewrite bind_run, Hd, bind_run, Htd.
    change (String.eqb "function" "function") with true. cbv iota.
    rewrite bind_run, Hc, bind_run, Htc.
    change (String.eqb "function" "function") with true. cbv iota.
    by eexists.
Qed.

(** Property X17.  A procedure that has just been registered is consulted
    first: after [defineCloneProcedure(p)] has answered [true], the scan
    for any object starts with [p.detect]; when it matches, the result is
    that of [p.copy], and none of the procedures registered before is
    consulted. *)
Theorem X17_registered_last_consulted_first (host : host_env)
    (procs : list value) (p obj d : value) (h h1 : heap) (tr : list event)
    (st1 : state) :
  CY_defineCloneProcedure p (State h procs tr) = Ok true st1 →
  detector_answers host (procs ++ [p]) obj h p d h1 → truthy d = true →
  _attemptCustomClone host obj st1
  = call_method host p "copy" [obj]
      (State h1 (procs ++ [p])
         (tr ++ [ConsoleLog "procIdx:" (length procs);
                 Invoke p "detect" [obj]])).
Proof.
  intros ->%registration_state Hd Ht. cbn [st_heap procedures trace].
  apply (attempt_first_match host procs p [] obj h tr d h1); [|done..].
  intros q Hq. by apply elem_of_nil in Hq.
Qed.

(** Property X18.  [clearCustomCloneProcedures] empties the registry,
    whatever it held, and touches nothing else; the scan that follows
    consults no procedure and logs nothing.  So a registration followed by
    a clearing is without effect on the clones made afterwards. *)
Theorem X18_clear_unregisters_everything (host : host_env) (st : state)
    (obj p x : value) (fuel : nat) :
  CY_clearCustomCloneProcedures st = Ok tt (State (st_heap st) [] (trace st))
  ∧ (CY_clearCustomCloneProcedures;; _attemptCustomClone host obj) st
    = Ok VUndefined (State (st_heap st) [] (trace st))
  ∧ ∀ b st1, CY_defineCloneProcedure p st = Ok b st1 →
      (CY_clearCustomCloneProcedures;; CY_clone host fuel x) st1
      = CY_clone host fuel x (State (st_heap st) [] (trace st)).
Proof.
  split_and!; [done|done|]. by intros b st1 ->%registration_state.
Qed.

(** ** The binding utility *)

(** Property X19.  The function [_bind(fn, ctx, ...bound)] calls [fn] with
    the receiver [ctx] and the arguments [bound] followed by those of the
    call, whatever its own receiver; binding it again cannot change the
    receiver, and puts the new bound arguments after the first ones.  With
    [fn] the [call] method, as for [_hasProp] and [_toString]: the first
    argument of the call becomes the receiver of the method [m], and the
    rest its arguments. *)
Theorem X19_bind_fixes_receiver_and_prepends {T T1 T2 R : Type}
    (fn : T → list value → R) (m : value → list value → R)
    (ctx : T) (ctx1 : T1) (this1 : T2)
    (bound bound1 args : list value) (x : value) :
  _bind fn ctx bound ctx1 args = fn ctx (bound ++ args)
  ∧ _bind (_bind fn ctx bound) ctx1 bound1 this1 args
    = fn ctx (bound ++ bound1 ++ args)
  ∧ _bind __call__ m [] ctx1 (x :: args) = m x args
  ∧ _bind __call__ m [] ctx1 [] = m VUndefined [].
Proof. unfold _bind. by rewrite app_assoc. Qed.

(** ** Exporting the module *)

Lemma typeof_function h procs tr x fid :
  is_function h x fid →
  typeof_identifier x (State h procs tr) = Ok "function" (State h procs tr).
Proof.
  intros (l & o & -> & Hl & Hk). cbn [typeof_identifier].
  rewrite (run_typeof_ref l o) by done. unfold is_callable. by rewrite Hk.
Qed.

(** Property X20.  Node comes first: when [module] is an object whose
    [exports] is of type ['object'], the module object is assigned to
    [module.exports] and nothing else happens, whatever [define], [require]
    and [root] are.  A [module] that is [null] passes the first test and
    makes the export code throw a TypeError. *)
Theorem X20_export_node_first (host : host_env) (factory : nat)
    (sc : module_scope) (root CY : value) (h : heap) (procs : list value)
    (tr : list event) :
  (∀ lm om e,
     id_module sc = Some (VRef lm) → h !! lm = Some om →
     is_callable om = false →
     Get (VRef lm) "exports" (State h procs tr) = Ok e (State h procs tr) →
     typeof_ e (State h procs tr) = Ok "object" (State h procs tr) →
     export_module host factory sc root CY (State h procs tr)
     = Ok tt (State (<[lm := Obj (oproto om) (okind om)
                               (<["exports" := CY]> (oprops om))]> h)
                procs tr))
  ∧ (id_module sc = Some VNull →
     export_module host factory sc root CY (State h procs tr)
     = Throw (TypeError "Cannot read property 'exports' of null")
         (State h procs tr)).
Proof.
  split.
  - intros lm om e Hm Hlm Hc Hget Hte.
    unfold export_module, is_node. rewrite !bind_run, Hm. cbn [typeof_identifier].
    rewrite (run_typeof_ref lm om), Hc by done.
    change (String.eqb "object" "object") with true. cbv iota.
    rewrite bind_run. cbn [read_identifier]. unfold mret, M_ret, ret at 1.
    rewrite bind_run, Hget, bind_run, Hte.
    change (String.eqb "object" "object") with true. cbv iota beta.
    unfold mret, M_ret, ret at 1. cbv iota beta.
    rewrite bind_run. unfold ret at 1. cbv iota beta. cbn [assign].
    by rewrite (run_put lm om).
  - intros Hm. unfold export_module, is_node. rewrite !bind_run, Hm. reflexivity.
Qed.

(** Property X21.  When the test for Node fails: if [define] and [require]
    are both functions, [define] is called once, with a new empty array and
    a new function (the one that returns the module object), its result is
    dropped and what it throws is not caught; [root] is not touched.
    Otherwise the module object is assigned to [root.CY], which throws a
    TypeError when [root] is [undefined]. *)
Theorem X21_export_amd_then_root (host : host_env) (factory : nat)
    (sc : module_scope) (root CY : value) (h : heap) (procs : list value)
    (tr : list event) :
  is_node sc (State h procs tr) = Ok false (State h procs tr) →
  (∀ fd fr,
     is_function h (id_define sc) fd → is_function h (id_require sc) fr →
     let deps := VRef (length h) in
     let f := VRef (S (length h)) in
     let h1 := h ++ [Obj (PStd "Array") (KArray 0) ∅;
                     Obj (PStd "Function") (KFunction factory) ∅] in
     let tr1 := tr ++ [Invoke VUndefined "define" [deps; f]] in
     export_module host factory sc root CY (State h procs tr)
     = match host fd VUndefined [deps; f] h1 with
       | HReturn _ h' => Ok tt (State h' procs tr1)
       | HThrow e h' => Throw (HostThrow e) (State h' procs tr1)
       end)
  ∧ (is_amd sc (State h procs tr) = Ok false (State h procs tr) →
     export_module host factory sc root CY (State h procs tr)
     = assign root "CY" CY (State h procs tr)
     ∧ (∀ lr o, root = VRef lr → h !! lr = Some o →
          assign root "CY" CY (State h procs tr)
          = Ok tt (State (<[lr := Obj (oproto o) (okind o)
                                    (<["CY" := CY]> (oprops o))]> h)
                     procs tr))
     ∧ (root = VUndefined →
        assign root "CY" CY (State h procs tr)
        = Throw (TypeError "Cannot set property 'CY' of undefined")
            (State h procs tr))).
Proof.
  intros Hnode. split.
  - intros fd fr Hd Hr deps f h1 tr1.
    unfold export_module. rewrite bind_run, Hnode. cbv iota.
    unfold is_amd. rewrite !bind_run.
    rewrite (typeof_function h procs tr _ fd Hd).
    change (String.eqb "function" "function") with true. cbv iota.
    rewrite bind_run, (typeof_function h procs tr _ fr Hr).
    cbv beta iota. unfold mret, M_ret, ret at 1.
    change (String.eqb "function" "function") with true. cbv iota.
    destruct Hd as (ld & od & -> & Hld & Hk).
    unfold new_Array, alloc. cbn [st_heap procedures trace read_identifier].
    rewrite !bind_run. cbn [st_heap procedures trace ret]. cbv beta iota.
    unfold call_function, lookup_obj. rewrite !bind_run.
    cbn [st_heap procedures trace].
    rewrite length_app. cbn [length]. rewrite Nat.add_1_r.
    rewrite <- app_assoc. cbn [app].
    rewrite lookup_app_l by (by eapply lookup_lt_Some). rewrite Hld, Hk.
    unfold emit, get_heap. rewrite !bind_run. cbn [st_heap procedures trace].
    fold deps f h1 tr1.
    destruct (host fd VUndefined [deps; f] h1); reflexivity.
  - intros Hamd. split_and!.
    + unfold export_module. by rewrite bind_run, Hnode, bind_run, Hamd.
    + intros lr o -> Hlr. cbn [assign]. by rewrite (run_put lr o).
    + by intros ->.
Qed.

(** ** The further properties at work on the examples *)

Lemma ex_objects_closed : heap_closed ex_objects.
Proof. apply heap_closedb_sound. vm_compute. reflexivity. Qed.

Lemma ex_objects_standard : standard_valueOf ex_objects.
Proof. apply standard_valueOfb_sound. vm_compute. reflexivity. Qed.

Lemma ex_objects_supported : supported_heap ex_objects.
Proof. apply supported_heapb_sound. vm_compute. reflexivity. Qed.

Lemma ex_objects_noproto : no_proto_member ex_objects.
Proof. apply no_proto_memberb_sound. vm_compute. reflexivity. Qed.

Lemma ex_plain_closed : heap_closed ex_plain.
Proof. apply heap_closedb_sound. vm_compute. reflexivity. Qed.

Lemma ex_plain_standard : standard_valueOf ex_plain.
Proof. apply standard_valueOfb_sound. vm_compute. reflexivity. Qed.

Lemma ex_plain_supported : supported_heap ex_plain.
Proof. apply supported_heapb_sound. vm_compute. reflexivity. Qed.

Lemma ex_plain_noproto : no_proto_member ex_plain.
Proof. apply no_proto_memberb_sound. vm_compute. reflexivity. Qed.

Lemma ex_plain_plain : plain_heap ex_plain.
Proof. apply plain_heapb_sound. vm_compute. reflexivity. Qed.

(** The clone of the array of [ex_objects], and that of the record of
    [ex_plain], return. *)
Lemma ex_objects_clone :
  ∃ c st', CY_clone ex_host 20 (VRef 7) (State ex_objects [] []) = Ok c st'.
Proof.
  destruct (clone_terminates ex_host [] ex_objects
              (resolver_declines_nil ex_host ex_objects) ex_objects_closed
              ex_objects_standard ex_objects_noproto [] 20 (VRef 7))
    as [_ H]; [vm_compute; lia..|]. apply H, ex_objects_supported.
Qed.

Lemma ex_plain_clone :
  ∃ c st', CY_clone ex_host 20 (VRef 0) (State ex_plain [] []) = Ok c st'.
Proof.
  destruct (clone_terminates ex_host [] ex_plain
              (resolver_declines_nil ex_host ex_plain) ex_plain_closed
              ex_plain_standard ex_plain_noproto [] 20 (VRef 0))
    as [_ H]; [vm_compute; lia..|]. apply H, ex_plain_supported.
Qed.

Lemma X1_witness :
  TransferMap_get (TransferMap_set (register_all ex_ops) (VRef 2) (VRef 9))
    (VRef 2) = VRef 9
  ∧ TransferMap_get (TransferMap_set (register_all ex_ops) (VRef 2) (VRef 9))
      (VRef 1) = VRef 6.
Proof.
  split.
  - exact (X1_get_after_set (register_all ex_ops) (VRef 2) (VRef 9) (VRef 2)
             eq_refl).
  - exact (X1_get_after_set (register_all ex_ops) (VRef 2) (VRef 9) (VRef 1)
             eq_refl).
Defined.

Lemma X2_witness :
  TransferMap_get (TransferMap_set TransferMap_new (VNumber NaN) (VRef 1))
    (VNumber NaN) = VNull.
Proof.
  destruct (X2_NaN_key_never_found TransferMap_new NaN (VRef 1) eq_refl)
    as (_ & _ & H). exact H.
Defined.

Lemma X3_witness :
  CY_clone ex_host 1 (VString "text") (ex_state [VRef 7])
  = Ok (VString "text") (ex_state [VRef 7]).
Proof.
  apply (X3_primitives_returned_as_they_are ex_host (VString "text") 0).
  intros l. discriminate.
Defined.

Lemma X4_witness :
  ∃ tr', CY_clone ex_host 1 (VRef 0) (State ex_objects [] [])
         = Ok (VRef 8)
             (State (ex_objects ++ [Obj (PStd "String") (KString "abc") ∅])
                [] tr').
Proof.
  apply (X4_wrapper_clone_keeps_value_only ex_host [] ex_objects [] 0
           (Obj (PStd "String") (KString "abc")
              (list_to_map [("tag", VNumber five)])) "String" 0).
  - apply resolver_declines_nil.
  - reflexivity.
  - apply ex_objects_standard; reflexivity.
  - reflexivity.
Defined.

Lemma X5_witness : _htmlElementRE_test "[object HTMLDivElement]" = true.
Proof.
  destruct X5_html_element_test as (_ & H & _).
  apply (H "HTMLDivElement"). exists "Div". split; reflexivity.
Defined.

Lemma X6_witness :
  ∃ tr', CY_clone ex_host 1 (VRef 3) (State ex_objects [] [])
         = cloneNode (VRef 3) (State ex_objects [] tr')
    ∧ cloneNode (VRef 3) (State ex_objects [] tr')
      = Ok (VRef 8)
          (State (ex_objects
                    ++ [Obj (PStd "HTMLDivElement")
                          (KOther "HTMLDivElement" true) ∅]) [] tr').
Proof.
  apply (X6_html_element_cloned_by_cloneNode ex_host [] ex_objects [] 3
           (Obj (PStd "HTMLDivElement") (KOther "HTMLDivElement" true)
              (list_to_map [("expando", VRef 1)])) "HTMLDivElement" 0).
  - apply resolver_declines_nil.
  - reflexivity.
  - apply ex_objects_standard; reflexivity.
  - reflexivity.
  - reflexivity.
Defined.

Lemma X7_witness :
  ∃ tr', CY_clone ex_host 1 (VRef 0) (State ex_rejected [] [])
         = Throw (TypeError "Don't know how to clone object of type [object Error]")
             (State ex_rejected [] tr').
Proof.
  apply (X7_unknown_class_rejected ex_host [] ex_rejected [] 0
           (Obj (PStd "Error") (KOther "Error" false) ∅) "Error" false 0).
  - apply resolver_declines_nil.
  - reflexivity.
  - exists "Error". split; reflexivity.
  - reflexivity.
  - rewrite !elem_of_cons, elem_of_nil. intros H.
    repeat (destruct H as [H|H]; [discriminate H|]). exact H.
  - reflexivity.
Defined.

Lemma X8_witness :
  (∃ msg tr', CY_clone ex_host 1 (VRef 1) (State ex_rejected [] [])
              = Throw (TypeError msg) (State ex_rejected [] tr'))
  ∧ (∃ msg tr', CY_clone ex_host 1 (VRef 2) (State ex_rejected [] [])
                = Throw (TypeError msg) (State ex_rejected [] tr')).
Proof.
  split.
  - apply (X8_object_without_valueOf_rejected ex_host [] ex_rejected [] 1
             (Obj PNull KObject ∅) 0).
    + apply resolver_declines_nil.
    + reflexivity.
    + reflexivity.
    + left. reflexivity.
  - apply (X8_object_without_valueOf_rejected ex_host [] ex_rejected [] 2
             (ex_record [("valueOf", VNumber five)]) 0).
    + apply resolver_declines_nil.
    + reflexivity.
    + reflexivity.
    + right. exists (VNumber five). split; [reflexivity|].
      right. intros lf. discriminate.
Defined.



Lemma X11_witness :
  ∃ c st', CY_clone ex_host 20 (VRef 7) (State ex_objects [] []) = Ok c st'
    ∧ ∃ lc oc, c = VRef lc ∧ st_heap st' !! lc = Some oc
               ∧ okind oc = KArray 3 ∧ oproto oc = PStd "Array"
               ∧ oprops oc !! "1" = None
               ∧ oprops oc !! "2" = Some (VString "z").
Proof.
  destruct ex_objects_clone as (c & st' & E). exists c, st'.
  split; [exact E|].
  destruct (X11_collection_clone_members ex_host [] ex_objects [] 7
              (Obj (PStd "Array") (KArray 3)
                 (list_to_map [("0", VRef 5); ("2", VString "z")])) 20 c st')
    as (lc & oc & Hc & _ & Hoc & Hk & Hp & Hdom & Hprim & _).
  - apply resolver_declines_nil.
  - apply ex_objects_closed.
  - apply ex_objects_standard.
  - apply ex_objects_noproto.
  - reflexivity.
  - right. by exists 3.
  - exact E.
  - exists lc, oc. split; [exact Hc|]. split; [exact Hoc|].
    split; [exact Hk|]. split; [exact Hp|]. split.
    + apply eq_None_not_Some. intros Hs. apply Hdom in Hs.
      destruct Hs as [v Hv]. vm_compute in Hv. discriminate.
    + apply Hprim; reflexivity.
Defined.



Lemma X14_witness :
  ∃ c st', CY_clone ex_host 20 (VRef 0) (State ex_plain [] []) = Ok c st'
           ∧ structurally_equal (st_heap st') (VRef 0) c.
Proof.
  destruct ex_plain_clone as (c & st' & E). exists c, st'.
  split; [exact E|].
  apply (X14_clone_equal_to_plain_original ex_host [] ex_plain [] (VRef 0)
           20 c st').
  - apply resolver_declines_nil.
  - apply ex_plain_closed.
  - apply ex_plain_standard.
  - apply ex_plain_noproto.
  - apply ex_plain_plain.
  - vm_compute. lia.
  - exact E.
Defined.

Lemma X15_witness :
  _attemptCustomClone ex_host (VRef 0) (ex_state [VRef 7; VRef 1])
  = Throw (TypeError "detect is not a function")
      (State ex_heap [VRef 7; VRef 1] [ConsoleLog "procIdx:" 1])
  ∧ CY_clone ex_host 1 (VRef 0) (ex_state [VRef 7; VRef 1])
    = Throw (TypeError "detect is not a function")
        (State ex_heap [VRef 7; VRef 1] [ConsoleLog "procIdx:" 1]).
Proof.
  destruct (X15_detector_exception_aborts_clone ex_host [VRef 7] []
              (VRef 1) (VRef 0) ex_heap []
              (TypeError "detect is not a function")
              (State ex_heap [VRef 7; VRef 1] [ConsoleLog "procIdx:" 1]))
    as [H1 H2].
  - intros q Hq. by apply elem_of_nil in Hq.
  - reflexivity.
  - split; [exact H1|].
    apply (H2 0 (ex_record [("self", VRef 0); ("x", VRef 1); ("y", VRef 1);
                            ("n", VNumber five)]) 0); reflexivity.
Defined.

Lemma X16_witness :
  ∃ st', CY_defineCloneProcedure (VRef 7) (ex_state []) = Ok true st'.
Proof.
  destruct (X16_registration_outcomes (VRef 7) (ex_state [])) as [_ [_ H]].
  apply H. split; [reflexivity|].
  exists (VRef 2), (VRef 3). split_and!; reflexivity.
Defined.

Lemma X17_witness :
  _attemptCustomClone ex_host (VRef 1) (State ex_heap [VRef 7; VRef 13] [])
  = Ok VNull
      (State ex_heap [VRef 7; VRef 13]
         [ConsoleLog "procIdx:" 1; Invoke (VRef 13) "detect" [VRef 1];
          Invoke (VRef 13) "copy" [VRef 1]]).
Proof.
  rewrite (X17_registered_last_consulted_first ex_host [VRef 7] (VRef 13)
             (VRef 1) (VBool true) ex_heap ex_heap []
             (State ex_heap [VRef 7; VRef 13] [])).
  - reflexivity.
  - reflexivity.
  - intros tr. reflexivity.
  - reflexivity.
Defined.

Lemma X18_witness :
  (CY_clearCustomCloneProcedures;; CY_clone ex_host 20 (VRef 1))
    (State ex_heap [VRef 7] [])
  = CY_clone ex_host 20 (VRef 1) (ex_state []).
Proof.
  destruct (X18_clear_unregisters_everything ex_host (ex_state []) VNull
              (VRef 7) (VRef 1) 20) as (_ & _ & H).
  apply (H true). reflexivity.
Defined.

Lemma X20_witness :
  export_module ex_host 4
    (ModuleScope (Some (VRef 0)) (Some (VRef 2)) (Some (VRef 3)))
    (VRef 5) (VRef 4) (State ex_modules [] [])
  = Ok tt
      (State (<[0 := ex_record [("exports", VRef 4)]]> ex_modules) [] []).
Proof.
  destruct (X20_export_node_first ex_host 4
              (ModuleScope (Some (VRef 0)) (Some (VRef 2)) (Some (VRef 3)))
              (VRef 5) (VRef 4) ex_modules [] []) as [H _].
  rewrite (H 0 (ex_record [("exports", VRef 1)]) (VRef 1)); reflexivity.
Defined.

Lemma X21_witness :
  export_module ex_host 4 (ModuleScope None (Some (VRef 2)) (Some (VRef 3)))
    (VRef 5) (VRef 4) (State ex_modules [] [])
  = Ok tt
      (State (ex_modules ++ [Obj (PStd "Array") (KArray 0) ∅;
                             Obj (PStd "Function") (KFunction 4) ∅])
         [] [Invoke VUndefined "define" [VRef 6; VRef 7]]).
Proof.
  destruct (X21_export_amd_then_root ex_host 4
              (ModuleScope None (Some (VRef 2)) (Some (VRef 3)))
              (VRef 5) (VRef 4) ex_modules [] [] eq_refl) as [H _].
  rewrite (H 1 1).
  - reflexivity.
  - exists 2, (ex_function 1 []). split_and!; reflexivity.
  - exists 3, (ex_function 1 []). split_and!; reflexivity.
Defined.
